(** * A memcached binary-protocol client: codec, shard selection, lifecycle

    Shallow embedding of the Go package [memcache]
    (server_conn.go, the key validator and the operation executor of the
    client file, and the server list), with the properties of its
    specification stated over it.

    Conventions of the embedding:
    - a Go [string] is a [String.string]; a [[]byte] is a [list byte];
      [stobs] is the conversion between them;
    - unsigned machine integers are [Z] with the wrap-around written out;
    - a [net.Conn] is a record holding the bytes the peer is going to
      send, the bytes written so far and the scripted outcomes of the
      coming [Write] calls;
    - the connection pools are external: a pool is the script of the
      outcomes of its coming [Get] calls, and [Put]/[Close] are recorded in
      a trace;
    - a Go function returning [(v, err)] returns a [result]; a run-time
      panic (index out of range) is the third outcome [Panic]. *)

From Stdlib Require Import ZArith List Lia Bool.
From Stdlib Require Import Strings.String Strings.Byte Strings.Ascii.
From stdpp Require Import gmap strings list fin_maps.

Open Scope Z_scope.

(** ** Bytes and big-endian integers *)

Module Bytes.

Definition Z_of_byte (b : byte) : Z := Z.of_N (Byte.to_N b).

(** Go's conversion [byte(x)]: the low eight bits. *)
Definition byte_of_Z (z : Z) : byte :=
  match Byte.of_N (Z.to_N (z mod 256)) with
  | Some b => b
  | None => x00
  end.

(** [binary.BigEndian.Uint16/32/64] read a fixed number of leading bytes and
    panic (index out of range) on a shorter slice: [None]. *)
Fixpoint be_read (n : nat) (bs : list byte) (acc : Z) : option Z :=
  match n with
  | O => Some acc
  | S n' =>
      match bs with
      | [] => None
      | b :: bs' => be_read n' bs' (acc * 256 + Z_of_byte b)
      end
  end.

Definition bUint16 (bs : list byte) : option Z := be_read 2 bs 0.
Definition bUint32 (bs : list byte) : option Z := be_read 4 bs 0.
Definition bUint64 (bs : list byte) : option Z := be_read 8 bs 0.

(** The [n] big-endian bytes of [v] (the low [8n] bits of [v]). *)
Fixpoint be_bytes (n : nat) (v : Z) : list byte :=
  match n with
  | O => []
  | S n' => byte_of_Z (Z.shiftr v (8 * Z.of_nat n')) :: be_bytes n' v
  end.

(** [dst[0:n] = src[0:n]] for a [dst] of at least [n] bytes, keeping the rest
    of [dst]; this is what [PutUintN(dst, v)] does with the bytes of [v]. *)
Definition overwrite (dst src : list byte) : list byte :=
  src ++ skipn (List.length src) dst.

Definition putUint16 (dst : list byte) (v : Z) : list byte :=
  overwrite dst (be_bytes 2 v).
Definition putUint32 (dst : list byte) (v : Z) : list byte :=
  overwrite dst (be_bytes 4 v).
Definition putUint64 (dst : list byte) (v : Z) : list byte :=
  overwrite dst (be_bytes 8 v).

(** [make([]byte, n)]. *)
Definition make (n : nat) : list byte := repeat x00 n.

(** [b[lo:hi]] on a slice long enough. *)
Definition slice (lo hi : nat) (bs : list byte) : list byte :=
  firstn (hi - lo) (skipn lo bs).

(** Modelled from the spec: [stobs], a helper of the package that is not
    among the sources; it gives the raw bytes of a key. *)
Definition stobs (s : string) : list byte := list_byte_of_string s.

(** [string(b)]. *)
Definition bstos (bs : list byte) : string := string_of_list_byte bs.

(** [len(s)] of a Go string: its number of bytes. *)
Definition len (s : string) : nat := List.length (stobs s).

End Bytes.
Import Bytes.

(** ** Errors (server_conn.go) *)

(** The package's sentinel errors are compared by identity in the source
    ([switch err]); here they are the constructors of a closed type.
    [ErrResponse r] is a [response] value used as an error ([asError]'s
    fall-through), [ErrIO] an error of the transport or of the pool, and
    [ErrNew] an error built by [errors.New] or [fmt.Errorf] at the place
    of the call. *)
Inductive error : Type :=
| ErrCacheMiss
| ErrCASConflict
| ErrNotStored
| ErrServerError
| ErrNoStats
| ErrMalformedKey
| ErrNoServers
| ErrBadMagic
| ErrBadIncrDec
| ErrResponse (r : Z)
| ErrIO (msg : string)
| ErrNew (msg : string).

Definition io_EOF : error := ErrIO "EOF".

(** [response.Error()]. *)
Definition response_Error (r : Z) : string :=
  if r =? 0 then "Ok"
  else if r =? 1 then "key not found"
  else if r =? 2 then "key already exists"
  else if r =? 3 then "value too large"
  else if r =? 4 then "invalid arguments"
  else if r =? 5 then "item not stored"
  else if r =? 6 then "incr/decr on non-numeric value"
  else if r =? 7 then "wrong vbucket"
  else if r =? 8 then "auth error"
  else if r =? 9 then "auth continue"
  else "".

(** [err.Error()]. *)
Definition Error_string (e : error) : string :=
  match e with
  | ErrCacheMiss => "memcache: cache miss"
  | ErrCASConflict => "memcache: compare-and-swap conflict"
  | ErrNotStored => "memcache: item not stored"
  | ErrServerError => "memcache: server error"
  | ErrNoStats => "memcache: no statistics available"
  | ErrMalformedKey =>
      "malformed: key is too long or contains invalid characters"
  | ErrNoServers => "memcache: no servers configured or available"
  | ErrBadMagic => "memcache: bad magic number in response"
  | ErrBadIncrDec => "memcache: incr or decr on non-numeric value"
  | ErrResponse r => response_Error r
  | ErrIO msg => msg
  | ErrNew msg => msg
  end.

(** Commands and response statuses. *)
Definition cmdGet : Z := 0.
Definition cmdSet : Z := 1.
Definition cmdAdd : Z := 2.
Definition cmdDelete : Z := 4.
Definition cmdIncr : Z := 5.
Definition cmdDecr : Z := 6.
Definition cmdFlush : Z := 8.
Definition cmdNoop : Z := 10.
Definition cmdGetKQ : Z := 13.
Definition opAuthList : Z := 32.
Definition opAuthStart : Z := 33.

Definition respOk : Z := 0.
Definition respKeyNotFound : Z := 1.
Definition respKeyExists : Z := 2.
Definition respInvalidArgs : Z := 4.
Definition respItemNotStored : Z := 5.
Definition respInvalidIncrDecr : Z := 6.

Definition reqMagic : Z := 128.
Definition respMagic : Z := 129.

(** [response.asError]. *)
Definition asError (r : Z) : error :=
  if r =? respKeyNotFound then ErrCacheMiss
  else if r =? respKeyExists then ErrNotStored
  else if r =? respInvalidIncrDecr then ErrBadIncrDec
  else if r =? respItemNotStored then ErrNotStored
  else ErrResponse r.

(** ** The key validator *)

(** [legalKey]: the loop over the indices of [key] is the recursion over
    its bytes. *)
Definition legal_byte (b : byte) : bool :=
  negb ((Z_of_byte b <=? 32) || (126 <? Z_of_byte b)).

Definition legalKey (key : string) : bool :=
  if (250 <? Z.of_nat (len key)) then false
  else forallb legal_byte (stobs key).

(** ** Results of Go calls *)

(** A call returns a value ([Ok]), returns a non-nil error ([Err]), or
    panics. *)
Inductive result (A : Type) : Type :=
| Ok (a : A)
| Err (e : error)
| Panic.
Arguments Ok {A} a.
Arguments Err {A} e.
Arguments Panic {A}.

(** ** Connections *)

(** A [net.Conn]: [incoming] is what the peer sends, from the read position
    on (its end is the end of the stream or a transport failure); [written]
    is what [Write] has accepted; [wscript] gives, call by call, the outcome
    of the coming [Write]s ([Some msg]: the write fails with a transport
    error), a [Write] past its end succeeds. *)
Record Conn : Type := mkConn {
  conn_id : nat;
  incoming : list byte;
  written : list byte;
  wscript : list (option string)
}.

(** [cn.Write(buf)]: the error of a failed write is the transport's, never
    one of the package's sentinels. *)
Definition conn_Write (cn : Conn) (buf : list byte) : option error * Conn :=
  match wscript cn with
  | Some msg :: rest =>
      (Some (ErrIO msg), mkConn (conn_id cn) (incoming cn) (written cn) rest)
  | None :: rest =>
      (None, mkConn (conn_id cn) (incoming cn) (written cn ++ buf) rest)
  | [] =>
      (None, mkConn (conn_id cn) (incoming cn) (written cn ++ buf) [])
  end.

(** Modelled from the spec: [readAtLeast], a helper of the package that is
    not among the sources. Each read is a short-read-safe full read that
    fails with an I/O error on premature end of stream: it returns the next
    [n] bytes, or the transport's error when fewer are left. *)
Definition readAtLeast (cn : Conn) (n : nat) : result (list byte) * Conn :=
  if (n <=? List.length (incoming cn))%nat then
    (Ok (firstn n (incoming cn)),
     mkConn (conn_id cn) (skipn n (incoming cn)) (written cn) (wscript cn))
  else
    (Err io_EOF, mkConn (conn_id cn) [] (written cn) (wscript cn)).

(** [io.CopyN(ioutil.Discard, cn, n)]: consumes [n] bytes, or what is left
    and then fails with [io.EOF]. *)
Definition CopyN_Discard (cn : Conn) (n : Z) : option error * Conn :=
  if n <=? Z.of_nat (List.length (incoming cn)) then
    (None,
     mkConn (conn_id cn) (skipn (Z.to_nat n) (incoming cn))
            (written cn) (wscript cn))
  else
    (Some io_EOF, mkConn (conn_id cn) [] (written cn) (wscript cn)).

(** ** The codec (server_conn.go) *)

(** An update [f] of the slice [buf[off:]], seen in [buf], with which the
    slice shares its array. *)
Definition from (off : nat) (buf : list byte)
    (f : list byte -> list byte) : list byte :=
  firstn off buf ++ f (skipn off buf).

Definition uint16 (z : Z) : Z := z mod 2 ^ 16.
Definition uint32 (z : Z) : Z := z mod 2 ^ 32.

(** The 24 bytes of header that [sendConnCommand] builds. *)
Definition request_header (key : string) (cmd : Z) (value : list byte)
    (casid : Z) (extras : list byte) : list byte :=
  let buf := make 24 in
  (* Magic (0) *)
  let buf := <[0%nat := byte_of_Z reqMagic]> buf in
  (* Command (1) *)
  let buf := <[1%nat := byte_of_Z cmd]> buf in
  let kl := Z.of_nat (len key) in
  let el := Z.of_nat (List.length extras) in
  (* Key length (2-3): uint16(kl) *)
  let buf := from 2 buf (fun b => putUint16 b (uint16 kl)) in
  (* Extras length (4): byte(el) *)
  let buf := <[4%nat := byte_of_Z el]> buf in
  (* Data type (5), VBucket (6-7): zero. Total body length (8-11) *)
  let vl := Z.of_nat (List.length value) in
  let bl := uint32 (kl + el + vl) in
  let buf := from 8 buf (fun b => putUint32 b bl) in
  (* Opaque (12-15): zero. CAS (16-23) *)
  from 16 buf (fun b => putUint64 b casid).

(** [sendConnCommand]: header, extras and key go out in one [Write], the
    value in a second one. *)
Definition sendConnCommand (cn : Conn) (key : string) (cmd : Z)
    (value : list byte) (casid : Z) (extras : list byte)
    : option error * Conn :=
  let buf := request_header key cmd value casid extras in
  let buf := if (0 <? List.length extras)%nat then buf ++ extras else buf in
  let buf := if (0 <? len key)%nat then buf ++ stobs key else buf in
  match conn_Write cn buf with
  | (Some err, cn1) => (Some err, cn1)
  | (None, cn1) =>
      if (0 <? List.length value)%nat then
        match conn_Write cn1 value with
        | (Some err, cn2) => (Some err, cn2)
        | (None, cn2) => (None, cn2)
        end
      else (None, cn1)
  end.

(** What [parseResponse] returns beside the error. *)
Record Response : Type := mkResponse {
  r_hdr : list byte;
  r_key : list byte;
  r_extras : list byte;
  r_value : list byte
}.

(** [make([]byte, n)] filled by [readAtLeast(cn, buf, n)] when [n > 0];
    the nil slice otherwise. *)
Definition read_field (cn : Conn) (n : Z) : result (list byte) * Conn :=
  if 0 <? n then readAtLeast cn (Z.to_nat n) else (Ok [], cn).

(** [parseResponse]. A slice expression or an index out of range would
    panic; on the 24-byte header none is. *)
Definition parseResponse (rKey : string) (cn : Conn)
    : result Response * Conn :=
  match readAtLeast cn 24 with
  | (Err err, cn1) => (Err err, cn1)
  | (Panic, cn1) => (Panic, cn1)
  | (Ok hdr, cn1) =>
    match hdr !! 0%nat, bUint32 (slice 8 12 hdr), bUint16 (slice 6 8 hdr),
          hdr !! 4%nat, bUint16 (slice 2 4 hdr) with
    | Some magic, Some total, Some status, Some elb, Some kl =>
      if negb (Z_of_byte magic =? respMagic) then (Err ErrBadMagic, cn1)
      else if negb (status =? respOk) then
        match CopyN_Discard cn1 total with
        | (Some err, cn2) => (Err err, cn2)
        | (None, cn2) =>
            if (status =? respInvalidArgs) && negb (legalKey rKey)
            then (Err ErrMalformedKey, cn2)
            else (Err (asError status), cn2)
        end
      else
        let el := Z_of_byte elb in
        match read_field cn1 el with
        | (Err err, cn2) => (Err err, cn2)
        | (Panic, cn2) => (Panic, cn2)
        | (Ok extras, cn2) =>
          match read_field cn2 kl with
          | (Err err, cn3) => (Err err, cn3)
          | (Panic, cn3) => (Panic, cn3)
          | (Ok key, cn3) =>
            let vl := total - el - kl in
            match read_field cn3 vl with
            | (Err err, cn4) => (Err err, cn4)
            | (Panic, cn4) => (Panic, cn4)
            | (Ok value, cn4) => (Ok (mkResponse hdr key extras value), cn4)
            end
          end
        end
    | _, _, _, _, _ => (Panic, cn1)
    end
  end.

(** ** CRC-32 (hash/crc32, IEEE polynomial) *)

Module crc32.

(** The reflected IEEE polynomial. *)
Definition IEEE : Z := 0xedb88320.

Definition step (c : Z) : Z :=
  if Z.testbit c 0 then Z.lxor (Z.shiftr c 1) IEEE else Z.shiftr c 1.

Definition update (c : Z) (b : byte) : Z :=
  Nat.iter 8 step (Z.lxor c (Z_of_byte b)).

(** [crc32.ChecksumIEEE]: initial value and final complement [0xffffffff]. *)
Definition ChecksumIEEE (data : list byte) : Z :=
  Z.lxor (fold_left update data 0xffffffff) 0xffffffff.

End crc32.

(** ** The pools and the server list *)

(** The outcome of one [pool.Get()]. *)
Inductive acquired : Type :=
| GotConn (cn : Conn)
| GetFailed (e : error).

(** A [pool.Pool] (external): the outcomes of its coming [Get] calls. A
    [Get] past the script fails, as a pool at its capacity does. *)
Record Pool : Type := mkPool { gets : list acquired }.

Definition ErrPoolExhausted : error := ErrIO "pool: no connection available".

Record ServerList : Type := mkServerList {
  pool : list Pool;
  poolLen : Z;
  serversNames : list string
}.

(** What the pools were asked to do, in order. *)
Inductive event : Type :=
| EvGet (index : Z) (cn : Conn)
| EvPut (index : Z) (cn : Conn)
| EvClose (index : Z) (cn : Conn).

(** The state a call of the client runs in: the server list it points to
    and the record of the pool operations so far. *)
Record World : Type := mkWorld {
  servers : ServerList;
  trace : list event
}.

(** Calls that run in the world. *)
Definition M (A : Type) : Type := World -> result A * World.

Definition ret {A} (a : A) : M A := fun w => (Ok a, w).
Definition fail {A} (e : error) : M A := fun w => (Err e, w).
Definition panic {A} : M A := fun w => (Panic, w).

(** Sequencing: an error returned with [if err != nil { return err }] and a
    panic both end the call. *)
Definition bind {A B} (m : M A) (k : A -> M B) : M B :=
  fun w =>
    match m w with
    | (Ok a, w') => k a w'
    | (Err e, w') => (Err e, w')
    | (Panic, w') => (Panic, w')
    end.

Notation "'run' x <- m ;; k" := (bind m (fun x => k))
  (at level 10, x name, m at level 99, k at level 200).

(** [_ = f(...)]: the returned error is dropped. *)
Definition ignore_err (m : M unit) : M unit :=
  fun w =>
    match m w with
    | (Err _, w') => (Ok tt, w')
    | r => r
    end.

(** A value a panicking primitive would not give. *)
Definition must {A} (o : option A) : M A :=
  match o with
  | Some a => ret a
  | None => panic
  end.

(** [ServerList.PickServerIndex]. The remainder by [uint32(len(s.pool))]
    panics when that is zero. *)
Definition PickServerIndex (s : ServerList) (key : string) : result Z :=
  if (List.length (pool s) =? 0)%nat then Err ErrNoServers
  else
    let cs := crc32.ChecksumIEEE (stobs key) in
    let n := uint32 (Z.of_nat (List.length (pool s))) in
    if n =? 0 then Panic else Ok (cs mod n).

Definition set_pool (s : ServerList) (i : nat) (p : Pool) : ServerList :=
  mkServerList (<[i := p]> (pool s)) (poolLen s) (serversNames s).

(** [ServerList.GetConnection]. *)
Definition GetConnection (index : Z) : M Conn :=
  fun w =>
    let s := servers w in
    if poolLen s <? index then (Err (ErrNew "server not found"), w)
    else
      match pool s !! Z.to_nat index with
      | None => (Panic, w)
      | Some p =>
          match gets p with
          | [] => (Err ErrPoolExhausted, w)
          | GetFailed e :: rest =>
              (Err e,
               mkWorld (set_pool s (Z.to_nat index) (mkPool rest)) (trace w))
          | GotConn cn :: rest =>
              (Ok cn,
               mkWorld (set_pool s (Z.to_nat index) (mkPool rest))
                       (trace w ++ [EvGet index cn]))
          end
      end.

(** [ServerList.PutConnection]; what [pool.Put] itself returns is dropped by
    every caller. *)
Definition PutConnection (index : Z) (cn : Conn) : M unit :=
  fun w =>
    let s := servers w in
    if poolLen s <? index then (Err (ErrNew "server not found"), w)
    else
      match pool s !! Z.to_nat index with
      | None => (Panic, w)
      | Some _ => (Ok tt, mkWorld s (trace w ++ [EvPut index cn]))
      end.

(** [ServerList.CloseConnection]. *)
Definition CloseConnection (index : Z) (cn : Conn) : M unit :=
  fun w =>
    let s := servers w in
    if poolLen s <? index then (Err (ErrNew "server not found"), w)
    else
      match pool s !! Z.to_nat index with
      | None => (Panic, w)
      | Some _ => (Ok tt, mkWorld s (trace w ++ [EvClose index cn]))
      end.

(** [ServerList.PoolLen] and [ServerList.Name]. *)
Definition PoolLen (s : ServerList) : Z := poolLen s.

Definition Name (s : ServerList) (index : Z) : option string :=
  serversNames s !! Z.to_nat index.

(** ** The configuration and the construction of the server list *)

Record Config : Type := mkConfig {
  Server : string;
  User : string;
  Password : string
}.

(** The collaborators of [NewServerList]: address resolution and the
    creation of a pool ([newPool], whose factory dials and authenticates). *)
Record Net : Type := mkNet {
  ResolveUnixAddr : string -> result string;
  ResolveTCPAddr : string -> result string;
  newPool : string -> Config -> result Pool
}.

(** [strings.Contains(s, "/")]. *)
Fixpoint contains_slash (s : string) : bool :=
  match s with
  | EmptyString => false
  | String c s' => if Ascii.eqb c "/"%char then true else contains_slash s'
  end.

(** The pool before any is stored at its index (a nil interface). *)
Definition nilPool : Pool := mkPool [].

(** The loop of [NewServerList] from index [i] on. *)
Fixpoint NewServerList_loop (net : Net) (configs : list Config) (i : nat)
    (servers : list Pool) (serversLen : Z) (serversName : list string)
    : result (list Pool * Z * list string) :=
  match configs with
  | [] => Ok (servers, serversLen, serversName)
  | config :: configs' =>
      let resolve :=
        if contains_slash (Server config) then ResolveUnixAddr net
        else ResolveTCPAddr net in
      match resolve (Server config) with
      | Err err => Err err
      | Panic => Panic
      | Ok addr =>
          match newPool net addr config with
          | Err err => Err err
          | Panic => Panic
          | Ok p =>
              NewServerList_loop net configs' (S i)
                (<[i := p]> servers) (serversLen + 1)
                (serversName ++ [Server config])
          end
      end
  end.

(** [NewServerList]: both slices are made with [len(configs)] elements; the
    pools are stored by index, the names are appended. *)
Definition NewServerList (net : Net) (configs : list Config)
    : result ServerList :=
  let servers := repeat nilPool (List.length configs) in
  let serversName := repeat EmptyString (List.length configs) in
  match NewServerList_loop net configs 0 servers 0 serversName with
  | Ok (servers, serversLen, serversName) =>
      Ok (mkServerList servers (uint32 serversLen) serversName)
  | Err err => Err err
  | Panic => Panic
  end.

(** ** The operation executor *)

(** [Item]; a call that takes a [*Item] gets the item and gives it back. *)
Record Item : Type := mkItem {
  Key : string;
  Value : list byte;
  Flags : Z;
  Expiration : Z;
  casid : Z
}.

Definition set_casid (item : Item) (c : Z) : Item :=
  mkItem (Key item) (Value item) (Flags item) (Expiration item) c.

(** The test of the statement
    [switch err { case nil, ErrCacheMiss, ErrCASConflict, ErrNotStored,
    ErrBadIncrDec: ... default: ... }]. *)
Definition returns_to_pool (err : option error) : bool :=
  match err with
  | None
  | Some ErrCacheMiss
  | Some ErrCASConflict
  | Some ErrNotStored
  | Some ErrBadIncrDec => true
  | Some _ => false
  end.

(** That statement, which every entry point repeats: the first case puts
    the connection back, the default closes it. *)
Definition switch_err (serverIndex : Z) (cn : Conn) (err : option error)
    : M unit :=
  if returns_to_pool err
  then ignore_err (PutConnection serverIndex cn)
  else ignore_err (CloseConnection serverIndex cn).

Definition pick (key : string) : M Z :=
  fun w => (PickServerIndex (servers w) key, w).

(** The fields of an item read off a response: [flags] from the extras when
    there are any, the cas id from bytes 16-23 of the header. *)
Definition item_of_response (key : string) (resp : Response) : option Item :=
  match (if (0 <? List.length (r_extras resp))%nat
         then bUint32 (r_extras resp) else Some 0),
        bUint64 (slice 16 24 (r_hdr resp)) with
  | Some flags, Some cas => Some (mkItem key (r_value resp) flags 0 cas)
  | _, _ => None
  end.

(** [Client.Get]. *)
Definition Get (key : string) : M Item :=
  run serverIndex <- pick key ;;
  run cn <- GetConnection serverIndex ;;
  match sendConnCommand cn key cmdGet [] 0 [] with
  | (Some err, cn1) =>
      run _ <- ignore_err (CloseConnection serverIndex cn1) ;;
      fail err
  | (None, cn1) =>
      match parseResponse key cn1 with
      | (Panic, _) => panic
      | (Err err, cn2) =>
          run _ <- switch_err serverIndex cn2 (Some err) ;;
          fail err
      | (Ok resp, cn2) =>
          run _ <- switch_err serverIndex cn2 None ;;
          let key :=
            if String.eqb key "" && (0 <? List.length (r_key resp))%nat
            then bstos (r_key resp) else key in
          must (item_of_response key resp)
      end
  end.

(** The first loop of a task of [GetMulti]: one [GetKQ] per key, until a
    send fails. *)
Fixpoint send_keys (cn : Conn) (keys : list string) : option error * Conn :=
  match keys with
  | [] => (None, cn)
  | k :: keys' =>
      match sendConnCommand cn k cmdGetKQ [] 0 [] with
      | (Some err, cn1) => (Some err, cn1)
      | (None, cn1) => send_keys cn1 keys'
      end
  end.

(** The second loop of a task: responses are read until one fails or comes
    without a key; every other one is an item sent on the channel. Each turn
    consumes a header, so [fuel] above the length of the stream is never
    used up ([None]). *)
Fixpoint read_items (fuel : nat) (cn : Conn)
    : option (result (list Item) * Conn) :=
  match fuel with
  | O => None
  | S fuel' =>
      match parseResponse "" cn with
      | (Panic, cn1) => Some (Panic, cn1)
      | (Err _, cn1) => Some (Ok [], cn1)
      | (Ok resp, cn1) =>
          if (List.length (r_key resp) =? 0)%nat then Some (Ok [], cn1)
          else
            match item_of_response (bstos (r_key resp)) resp with
            | None => Some (Panic, cn1)
            | Some item =>
                match read_items fuel' cn1 with
                | None => None
                | Some (Ok items, cn2) => Some (Ok (item :: items), cn2)
                | Some (r, cn2) => Some (r, cn2)
                end
            end
      end
  end.

(** The task [GetMulti] starts for one server: what it sends on its channel
    before closing it. *)
Definition GetMulti_task (serverIndex : Z) (keys : list string)
    : M (list Item) :=
  fun w =>
    match GetConnection serverIndex w with
    | (Panic, w1) => (Panic, w1)
    | (Err _, w1) => (Ok [], w1)
    | (Ok cn, w1) =>
        match send_keys cn keys with
        | (Some err, cn1) =>
            (run _ <- switch_err serverIndex cn1 (Some err) ;; ret []) w1
        | (None, cn1) =>
            match sendConnCommand cn1 "" cmdNoop [] 0 [] with
            | (Some err, cn2) =>
                (run _ <- switch_err serverIndex cn2 (Some err) ;; ret []) w1
            | (None, cn2) =>
                match read_items (S (List.length (incoming cn2))) cn2 with
                | Some (r, _) => (r, w1)
                | None => (Panic, w1)
                end
            end
        end
    end.

(** The first loop of [GetMulti]: the keys by server index. *)
Fixpoint group_keys (s : ServerList) (keys : list string)
    (keyMap : gmap Z (list string)) : result (gmap Z (list string)) :=
  match keys with
  | [] => Ok keyMap
  | key :: keys' =>
      match PickServerIndex s key with
      | Err err => Err err
      | Panic => Panic
      | Ok serverIndex =>
          group_keys s keys'
            (<[serverIndex := default [] (keyMap !! serverIndex) ++ [key]]>
               keyMap)
      end
  end.

(** The tasks of the entries of [keyMap]. Two tasks use different pools and
    connections and each has its own channel, which the caller drains in the
    order of [chs]: run one after the other they give the items in the order
    the caller receives them. *)
Fixpoint run_tasks (groups : list (Z * list string)) : M (list Item) :=
  match groups with
  | [] => ret []
  | (addr, keys) :: rest =>
      run items <- GetMulti_task addr keys ;;
      run more <- run_tasks rest ;;
      ret (items ++ more)
  end.

(** The last loop of [GetMulti]: [m[item.Key] = item]. *)
Definition merge_items (items : list Item) : gmap string Item :=
  foldl (fun m item => <[Key item := item]> m) ∅ items.

(** [Client.GetMulti]; [range keyMap] is [map_to_list keyMap]. *)
Definition GetMulti (keys : list string) : M (gmap string Item) :=
  fun w =>
    match group_keys (servers w) keys ∅ with
    | Err err => (Err err, w)
    | Panic => (Panic, w)
    | Ok keyMap =>
        (run items <- run_tasks (map_to_list keyMap) ;;
         ret (merge_items items)) w
    end.

(** [v, err := f(...)] with the error kept for the caller to test. *)
Definition try {A} (m : M A) : M (A + error) :=
  fun w =>
    match m w with
    | (Ok a, w') => (Ok (inl a), w')
    | (Err e, w') => (Ok (inr e), w')
    | (Panic, w') => (Panic, w')
    end.

(** [Client.populateOne]. The call gives back the item it was given a
    pointer to, and the error it returns ([None] is nil). *)
Definition populateOne (cmd : Z) (item : Item) (casid : Z)
    : M (Item * option error) :=
  let extras := make 8 in
  let extras := putUint32 extras (Flags item) in
  let extras :=
    from 4 extras (fun b => putUint32 b (uint32 (Expiration item))) in
  run r <- try (pick (Key item)) ;;
  match r with
  | inr err => ret (item, Some err)
  | inl serverIndex =>
    run r <- try (GetConnection serverIndex) ;;
    match r with
    | inr err => ret (item, Some err)
    | inl cn =>
      match sendConnCommand cn (Key item) cmd (Value item) casid extras with
      | (Some err, cn1) =>
          run _ <- ignore_err (CloseConnection serverIndex cn1) ;;
          ret (item, Some err)
      | (None, cn1) =>
          match parseResponse (Key item) cn1 with
          | (Panic, _) => panic
          | (Err err, cn2) =>
              run _ <- switch_err serverIndex cn2 (Some err) ;;
              ret (item, Some err)
          | (Ok resp, cn2) =>
              run _ <- ignore_err (PutConnection serverIndex cn2) ;;
              run c <- must (bUint64 (slice 16 24 (r_hdr resp))) ;;
              ret (set_casid item c, None)
          end
      end
    end
  end.

(** [Client.Set], [Client.Add], [Client.CompareAndSwap]. *)
Definition Set_ (item : Item) : M (Item * option error) :=
  populateOne cmdSet item 0.

Definition Add (item : Item) : M (Item * option error) :=
  populateOne cmdAdd item 0.

Definition CompareAndSwap (item : Item) : M (Item * option error) :=
  populateOne cmdSet item (casid item).

(** [Client.Delete]. *)
Definition Delete (key : string) : M unit :=
  run serverIndex <- pick key ;;
  run cn <- GetConnection serverIndex ;;
  match sendConnCommand cn key cmdDelete [] 0 [] with
  | (Some err, cn1) =>
      run _ <- ignore_err (CloseConnection serverIndex cn1) ;;
      fail err
  | (None, cn1) =>
      match parseResponse key cn1 with
      | (Panic, _) => panic
      | (Err err, cn2) =>
          run _ <- switch_err serverIndex cn2 (Some err) ;;
          fail err
      | (Ok _, cn2) =>
          run _ <- switch_err serverIndex cn2 None ;;
          ret tt
      end
  end.

(** [Client.incrDecr]: the extras are the delta, eight zero bytes and an
    expiration of all ones. *)
Definition incrDecr (cmd : Z) (key : string) (delta : Z) : M Z :=
  let extras := make 20 in
  let extras := putUint64 extras delta in
  let extras :=
    <[19%nat := xff]> (<[18%nat := xff]> (<[17%nat := xff]>
      (<[16%nat := xff]> extras))) in
  run serverIndex <- pick key ;;
  run cn <- GetConnection serverIndex ;;
  match sendConnCommand cn key cmd [] 0 extras with
  | (Some err, cn1) =>
      run _ <- ignore_err (CloseConnection serverIndex cn1) ;;
      fail err
  | (None, cn1) =>
      match parseResponse key cn1 with
      | (Panic, _) => panic
      | (Err err, cn2) =>
          run _ <- switch_err serverIndex cn2 (Some err) ;;
          fail err
      | (Ok resp, cn2) =>
          run _ <- switch_err serverIndex cn2 None ;;
          must (bUint64 (r_value resp))
      end
  end.

Definition Increment (key : string) (delta : Z) : M Z :=
  incrDecr cmdIncr key delta.

Definition Decrement (key : string) (delta : Z) : M Z :=
  incrDecr cmdDecr key delta.

(** [c.servers.Name(serverIndex)]. *)
Definition name_of (serverIndex : Z) : M string :=
  fun w => must (Name (servers w) serverIndex) w.

(** The loop of [Client.Flush] over the server indices, [n] of them left
    from [serverIndex] on. *)
Fixpoint Flush_loop (n : nat) (serverIndex : Z) (extras : list byte)
    (failed : list string) (errs : list error)
    : M (list string * list error) :=
  match n with
  | O => ret (failed, errs)
  | S n' =>
      run r <- try (GetConnection serverIndex) ;;
      match r with
      | inr err =>
          run name <- name_of serverIndex ;;
          Flush_loop n' (serverIndex + 1) extras
            (failed ++ [name]) (errs ++ [err])
      | inl cn =>
          match
            match sendConnCommand cn "" cmdFlush [] 0 extras with
            | (Some err, cn1) => (Err err, cn1)
            | (None, cn1) => parseResponse "" cn1
            end
          with
          | (Panic, _) => panic
          | (Err err, cn2) =>
              run name <- name_of serverIndex ;;
              run _ <- switch_err serverIndex cn2 (Some err) ;;
              Flush_loop n' (serverIndex + 1) extras
                (failed ++ [name]) (errs ++ [err])
          | (Ok _, cn2) =>
              run _ <- switch_err serverIndex cn2 None ;;
              Flush_loop n' (serverIndex + 1) extras failed errs
          end
      end
  end.

(** The text of the combined error, from entry [ii] of [failed] on. *)
Fixpoint write_failed (ii : nat) (failed : list string) (errs : list error)
    (buf : string) : option string :=
  match failed with
  | [] => Some buf
  | addr :: failed' =>
      let buf := if (0 <? ii)%nat then buf +:+ ", " else buf in
      let buf := buf +:+ addr in
      let buf := buf +:+ ": " in
      match errs !! ii with
      | None => None
      | Some e => write_failed (S ii) failed' errs (buf +:+ Error_string e)
      end
  end.

(** [Client.Flush]: [Ok tt] is the nil error. *)
Definition Flush (expiration : Z) : M unit :=
  let extras :=
    if 0 <? expiration then putUint32 (make 4) (uint32 expiration)
    else [] in
  fun w =>
    (run fe <- Flush_loop (Z.to_nat (PoolLen (servers w))) 0 extras [] [] ;;
     if (0 <? List.length (fst fe))%nat then
       run msg <- must (write_failed 0 (fst fe) (snd fe)
                          "failed to flush some servers: ") ;;
       fail (ErrNew msg)
     else ret tt) w.

(** ** Auxiliary definitions of the statements *)

(** The connection [cn] with [bs] left to read. *)
Definition with_incoming (cn : Conn) (bs : list byte) : Conn :=
  mkConn (conn_id cn) bs (written cn) (wscript cn).

(** The error [parseResponse] maps a status other than [respOk] to, for the
    key [rKey] of the request. *)
Definition status_error (rKey : string) (status : Z) : error :=
  if (status =? respInvalidArgs) && negb (legalKey rKey)
  then ErrMalformedKey
  else asError status.


(** A response header with the given status and total body length, and no
    key, extras, opaque or cas. *)
Definition response_header (status total : Z) : list byte :=
  [byte_of_Z respMagic; x00; x00; x00; x00; x00]
  ++ be_bytes 2 status ++ be_bytes 4 total ++ make 12.

(** A connection by its stream, whose writes succeed. *)
Definition conn_reading (id : nat) (bs : list byte) : Conn :=
  mkConn id bs [] [].


(** A network in which every address resolves to itself and [newPool] gives
    the pool listed for the address. *)
Definition example_net (shards : list (string * Pool)) : Net :=
  mkNet (fun s => Ok s) (fun s => Ok s)
        (fun addr _ =>
           match find (fun sp => String.eqb (fst sp) addr) shards with
           | Some sp => Ok (snd sp)
           | None => Err (ErrIO "dial: no such host")
           end).

(** The client that [New] builds for these addresses, before any call. *)
Definition example_world (shards : list (string * Pool)) : World :=
  match NewServerList (example_net shards)
          (map (fun sp => mkConfig (fst sp) "" "") shards) with
  | Ok s => mkWorld s []
  | _ => mkWorld (mkServerList [] 0 []) []
  end.

(** One server, whose pool hands out a connection on which the peer sends
    [bs]. *)
Definition one_server (bs : list byte) : World :=
  example_world [("localhost:11211", mkPool [GotConn (conn_reading 1 bs)])].

(** An item read earlier, with the cas id it was read with. *)
Definition example_item : Item :=
  mkItem "sc/seller/id/global/1102131071" (stobs "3743321700") 123 2419200 5.


(** The request frame: what [sendConnCommand] writes on a connection whose
    writes succeed. *)
Definition encode (key : string) (cmd : Z) (value : list byte) (casid : Z)
    (extras : list byte) : list byte :=
  written (snd (sendConnCommand (conn_reading 0 []) key cmd value casid
                  extras)).

(** The layout of a request frame, field by field: a 24-byte header with
    byte 0 = 0x80, byte 1 = opcode, bytes 2-3 = key length, byte 4 = extras
    length, byte 5 = 0, bytes 6-7 = 0, bytes 8-11 = total body length,
    bytes 12-15 = 0, bytes 16-23 = cas, all big-endian, then the extras, the
    key and the value. *)
Definition frame_layout (frame : list byte) (key : string) (cmd : Z)
    (value : list byte) (cas : Z) (extras : list byte) : Prop :=
  exists hdr : list byte,
    frame = hdr ++ extras ++ stobs key ++ value /\
    List.length hdr = 24%nat /\
    Z_of_byte <$> hdr !! 0%nat = Some 0x80 /\
    Z_of_byte <$> hdr !! 1%nat = Some cmd /\
    bUint16 (slice 2 4 hdr) = Some (Z.of_nat (len key)) /\
    Z_of_byte <$> hdr !! 4%nat = Some (Z.of_nat (List.length extras)) /\
    Z_of_byte <$> hdr !! 5%nat = Some 0 /\
    bUint16 (slice 6 8 hdr) = Some 0 /\
    bUint32 (slice 8 12 hdr) =
      Some (Z.of_nat (List.length extras) + Z.of_nat (len key)
            + Z.of_nat (List.length value)) /\
    bUint32 (slice 12 16 hdr) = Some 0 /\
    bUint64 (slice 16 24 hdr) = Some cas.

(** A key of [n] bytes ["a"]. *)
Definition long_key (n : nat) : string := bstos (repeat "a"%byte n).


(** A frame with the magic byte of a response in place of its own. *)
Definition as_response (frame : list byte) : list byte :=
  <[0%nat := byte_of_Z respMagic]> frame.

(** The request that a decoded frame describes, encoded: the opcode is
    byte 1 of the header and the cas value its bytes 16-23. *)
Definition reencode (resp : Response) : option (list byte) :=
  match r_hdr resp !! 1%nat, bUint64 (slice 16 24 (r_hdr resp)) with
  | Some op, Some cas =>
      Some (encode (bstos (r_key resp)) (Z_of_byte op) (r_value resp) cas
              (r_extras resp))
  | _, _ => None
  end.

(** The round trip of a request through the codec: the encoded frame
    decodes, and what it decodes to encodes to the same frame. *)
Definition roundtrip (key : string) (cmd : Z) (value : list byte) (cas : Z)
    (extras : list byte) : Prop :=
  exists resp cn',
    parseResponse key (conn_reading 0 (encode key cmd value cas extras))
    = (Ok resp, cn') /\
    reencode resp = Some (encode key cmd value cas extras).


(** A task of [GetMulti] aborts: the connection is not acquired, or one of
    the [GetKQ] requests or the closing [Noop] is not sent. *)
Inductive task_aborts (serverIndex : Z) (keys : list string) (w : World)
    : Prop :=
| abort_acquire e w1 :
    GetConnection serverIndex w = (Err e, w1) ->
    task_aborts serverIndex keys w
| abort_send cn w1 err cn1 :
    GetConnection serverIndex w = (Ok cn, w1) ->
    send_keys cn keys = (Some err, cn1) ->
    task_aborts serverIndex keys w
| abort_noop cn w1 cn1 err cn2 :
    GetConnection serverIndex w = (Ok cn, w1) ->
    send_keys cn keys = (None, cn1) ->
    sendConnCommand cn1 "" cmdNoop [] 0 [] = (Some err, cn2) ->
    task_aborts serverIndex keys w.

(** The tasks of the groups all return: the items of each, in order, and
    the world they leave. *)
Inductive tasks_run
    : list (Z * list string) -> World -> list (list Item) -> World -> Prop :=
| tasks_run_nil w : tasks_run [] w [] w
| tasks_run_cons addr keys rest w items w1 more w2 :
    GetMulti_task addr keys w = (Ok items, w1) ->
    tasks_run rest w1 more w2 ->
    tasks_run ((addr, keys) :: rest) w (items :: more) w2.


(** The frame of a response with status [respOk]. *)
Definition response_frame (opcode : Z) (key : string) (value : list byte)
    (cas : Z) (extras : list byte) : list byte :=
  as_response (encode key opcode value cas extras).

(** Two servers: the first refuses the connection, the second answers a
    pipelined get of the key ["a"] with its value and the final no-op. Of
    the keys ["a"] and ["d"], ["d"] is on the first and ["a"] on the
    second. *)
Definition one_down : World :=
  example_world
    [("a:11211", mkPool [GetFailed (ErrIO "connection refused")]);
     ("b:11211",
      mkPool [GotConn
                (conn_reading 2
                   (response_frame cmdGetKQ "a" (stobs "1") 7
                      (be_bytes 4 123)
                    ++ response_header respOk 0))])].


(** Three servers of which the second refuses the connection; the other two
    answer the flush with [respOk]. *)
Definition second_down : World :=
  example_world
    [("a:11211",
      mkPool [GotConn (conn_reading 1 (response_header respOk 0))]);
     ("b:11211", mkPool [GetFailed (ErrIO "connection refused")]);
     ("c:11211",
      mkPool [GotConn (conn_reading 3 (response_header respOk 0))])].

(** The requests written on the connections that the trace shows put back
    or closed, by server index. *)
Definition requests_of (tr : list event) : list (Z * list byte) :=
  flat_map (fun ev =>
              match ev with
              | EvPut index cn | EvClose index cn => [(index, written cn)]
              | EvGet _ _ => []
              end) tr.


(** The error a call has returned, [None] for nil; a panic in [Get] or
    [incrDecr] comes after the connection is dealt with, on a nil error. *)
Definition err_of {A} (r : result A) : option error :=
  match r with
  | Err e => Some e
  | _ => None
  end.

(** The lifecycle policy on the trace of one call: nothing was acquired, or
    one connection was, and it was put back when the error observed is
    nil, [ErrCacheMiss], [ErrCASConflict], [ErrNotStored] or
    [ErrBadIncrDec], and closed on any other. *)
Definition policy_applied (tr0 tr1 : list event) (err : option error)
    : Prop :=
  tr1 = tr0 \/
  exists index cn cn',
    conn_id cn' = conn_id cn /\
    tr1 = tr0 ++ [EvGet index cn;
                  if returns_to_pool err then EvPut index cn'
                  else EvClose index cn'].

(** Every connection acquired in the trace is, next, put back or closed. *)
Inductive settled : list event -> Prop :=
| settled_nil : settled []
| settled_put index cn cn' tr :
    conn_id cn' = conn_id cn -> settled tr ->
    settled (EvGet index cn :: EvPut index cn' :: tr)
| settled_close index cn cn' tr :
    conn_id cn' = conn_id cn -> settled tr ->
    settled (EvGet index cn :: EvClose index cn' :: tr).

(** The identities of the connections the trace shows acquired, and of
    those it shows put back or closed. *)
Definition acquired_ids (tr : list event) : list nat :=
  flat_map (fun ev =>
              match ev with
              | EvGet _ cn => [conn_id cn]
              | _ => []
              end) tr.

Definition released_ids (tr : list event) : list nat :=
  flat_map (fun ev =>
              match ev with
              | EvPut _ cn | EvClose _ cn => [conn_id cn]
              | EvGet _ _ => []
              end) tr.

(** A server list as [NewServerList] builds them. *)
Definition wf_servers (s : ServerList) : Prop :=
  poolLen s = Z.of_nat (List.length (pool s)) /\
  (List.length (pool s) <= List.length (serversNames s))%nat.

(** A pool after one [Get]. *)
Definition pop (p : Pool) : Pool := mkPool (tail (gets p)).


(** ** The factory of the connections (server.go) *)

(** [strings.Index(s, substr)], on the bytes of the strings: the index of
    the first occurrence of [substr] in [s], -1 when there is none. *)
Fixpoint has_prefix (s p : list byte) : bool :=
  match p, s with
  | [], _ => true
  | _ :: _, [] => false
  | b :: p', a :: s' => if Byte.eqb a b then has_prefix s' p' else false
  end.

Fixpoint Index_from (i : Z) (s substr : list byte) : Z :=
  if has_prefix s substr then i
  else
    match s with
    | [] => -1
    | _ :: s' => Index_from (i + 1) s' substr
    end.

Definition strings_Index (s substr : list byte) : Z := Index_from 0 s substr.

(** [[]byte(fmt.Sprintf("\x00%s\x00%s", user, password))]. *)
Definition plain_payload (user password : string) : list byte :=
  x00 :: stobs user ++ x00 :: stobs password.

(** The factory [newPool] gives to the pool, from the outcome [dial] of
    [net.DialTimeout] on: with credentials it asks for the mechanisms and,
    when PLAIN is among them, starts it with the credentials. (The line it
    prints when that fails is left out.) *)
Definition factory (config : Config) (dial : result Conn) : result Conn :=
  match dial with
  | Err err => Err err
  | Panic => Panic
  | Ok conn =>
    if String.eqb (User config) "" && String.eqb (Password config) ""
    then Ok conn
    else
      match sendConnCommand conn "" opAuthList [] 0 [] with
      | (Some err, _) => Err err
      | (None, conn1) =>
        match parseResponse "" conn1 with
        | (Err err, _) => Err err
        | (Panic, _) => Panic
        | (Ok resp, conn2) =>
          if negb (strings_Index (r_value resp) (stobs "PLAIN") =? -1) then
            match sendConnCommand conn2 "PLAIN" opAuthStart
                    (plain_payload (User config) (Password config)) 0 [] with
            | (Some err, _) => Err err
            | (None, conn3) =>
              match parseResponse "PLAIN" conn3 with
              | (Err err, _) => Err err
              | (Panic, _) => Panic
              | (Ok _, conn4) => Ok conn4
              end
            end
          else Ok conn2
        end
      end
  end.

(** Credentials are configured. *)
Definition has_credentials (config : Config) : bool :=
  negb (String.eqb (User config) "" && String.eqb (Password config) "").

(** ** Further definitions of the statements *)

(** The header of [response_frame]. *)
Definition response_frame_header (opcode : Z) (key : string)
    (value : list byte) (cas : Z) (extras : list byte) : list byte :=
  <[0%nat := byte_of_Z respMagic]>
    (request_header key opcode value cas extras).

(** Every coming [Write] on the connection succeeds. *)
Definition writes_succeed (cn : Conn) : Prop :=
  Forall (fun o => o = None) (wscript cn).

(** The server of [key] is the one at [index], whose pool hands out the
    connection [cn] on its next [Get]. *)
Definition serves (w : World) (key : string) (index : Z) (cn : Conn) : Prop :=
  PickServerIndex (servers w) key = Ok index /\
  (poolLen (servers w) <? index) = false /\
  exists rest,
    pool (servers w) !! Z.to_nat index = Some (mkPool (GotConn cn :: rest)).

(** The connection [cn] after it has written [bs] and the peer's next
    bytes are [inc], whatever is left of its script of writes. *)
Definition moved_on (cn cn' : Conn) (bs inc : list byte) : Prop :=
  conn_id cn' = conn_id cn /\
  written cn' = written cn ++ bs /\
  incoming cn' = inc.

(** What [NewServerList] gets for one configuration: the address resolved
    as a Unix socket when it holds a [/] and as a TCP address otherwise,
    then the pool made for it. *)
Definition made (net : Net) (config : Config) : result Pool :=
  match (if contains_slash (Server config) then ResolveUnixAddr net
         else ResolveTCPAddr net) (Server config) with
  | Ok addr => newPool net addr config
  | Err err => Err err
  | Panic => Panic
  end.

(** The shard selection sends [key] to the server at [index]. *)
Definition picks (s : ServerList) (index : Z) (key : string) : bool :=
  match PickServerIndex s key with
  | Ok i => i =? index
  | _ => false
  end.

(** An item as the server holds it: key, value, flags and cas value. *)
Record Hit : Type := mkHit {
  h_key : string;
  h_value : list byte;
  h_flags : Z;
  h_cas : Z
}.

(** The response of the server to a [cmdGetKQ] that finds the item, and the
    item the client makes of it. *)
Definition hit_frame (h : Hit) : list byte :=
  response_frame cmdGetKQ (h_key h) (h_value h) (h_cas h)
    (be_bytes 4 (h_flags h)).

Definition hit_item (h : Hit) : Item :=
  mkItem (h_key h) (h_value h) (h_flags h) 0 (h_cas h).

(** The key is not empty and the fields fit their widths. *)
Definition hit_ok (h : Hit) : Prop :=
  0 < Z.of_nat (len (h_key h)) < 2 ^ 16 /\
  0 <= h_flags h < 2 ^ 32 /\
  0 <= h_cas h < 2 ^ 64 /\
  4 + Z.of_nat (len (h_key h)) + Z.of_nat (List.length (h_value h)) < 2 ^ 32.

(** The response to the [cmdNoop] that ends a pipeline. *)
Definition noop_frame : list byte := response_frame cmdNoop "" [] 0 [].

(** * Properties *)

(** ** Bytes *)

Lemma Z_of_byte_range b : 0 <= Z_of_byte b < 256.
Proof.
  unfold Z_of_byte. pose proof (Byte.to_N_bounded b). lia.
Qed.

Lemma Z_of_byte_of_Z z : Z_of_byte (byte_of_Z z) = z mod 256.
Proof.
  unfold Z_of_byte, byte_of_Z.
  pose proof (Z.mod_pos_bound z 256 ltac:(lia)) as Hr.
  destruct (Byte.of_N (Z.to_N (z mod 256))) as [b|] eqn:E.
  - apply Byte.to_of_N in E. rewrite E. lia.
  - apply Byte.of_N_None_iff in E. lia.
Qed.

Lemma byte_of_Z_of_byte b : byte_of_Z (Z_of_byte b) = b.
Proof.
  unfold byte_of_Z. pose proof (Z_of_byte_range b) as Hr.
  rewrite Z.mod_small by lia. unfold Z_of_byte. rewrite N2Z.id.
  now rewrite Byte.of_to_N.
Qed.

(** ** The key validator *)

Lemma len_stobs key : len key = List.length (stobs key).
Proof. reflexivity. Qed.

Lemma legal_byte_spec b : legal_byte b = true <-> 32 < Z_of_byte b <= 126.
Proof. unfold legal_byte. lia. Qed.

Lemma forallb_legal_true bs :
  forallb legal_byte bs = true <->
  Forall (fun b => 32 < Z_of_byte b <= 126) bs.
Proof.
  induction bs as [|b bs IH]; simpl.
  - split; [constructor | reflexivity].
  - rewrite andb_true_iff, IH, legal_byte_spec. split.
    + intros [Hb Hbs]. now constructor.
    + intros H. inversion H; subst. now split.
Qed.

Lemma forallb_legal_false bs :
  forallb legal_byte bs = false <->
  Exists (fun b => Z_of_byte b <= 32 \/ 126 < Z_of_byte b) bs.
Proof.
  induction bs as [|b bs IH]; simpl.
  - split; [discriminate | intros H; inversion H].
  - rewrite andb_false_iff, IH. split.
    + intros [Hb | Hbs]; [left | now right].
      unfold legal_byte in Hb. lia.
    + intros H. inversion H; subst; [left | now right].
      unfold legal_byte. lia.
Qed.

(** A key the validator accepts has at most 250 bytes. *)
Lemma legalKey_len key : legalKey key = true -> (len key <= 250)%nat.
Proof.
  unfold legalKey. destruct (250 <? Z.of_nat (len key)) eqn:E;
    [discriminate | lia].
Qed.

(** C8. The key validator accepts exactly the keys of at most 250 bytes all
    of whose bytes are printable ASCII other than the space, that is in
    0x21..0x7e; it rejects exactly the keys longer than 250 bytes or holding
    a byte at most 0x20 or above 0x7e. *)
Theorem legalKey_accepts_exactly (key : string) :
  (legalKey key = true <->
   (len key <= 250)%nat /\
   Forall (fun b => 32 < Z_of_byte b <= 126) (stobs key)) /\
  (legalKey key = false <->
   (250 < len key)%nat \/
   Exists (fun b => Z_of_byte b <= 32 \/ 126 < Z_of_byte b) (stobs key)).
Proof.
  unfold legalKey. destruct (250 <? Z.of_nat (len key)) eqn:E.
  - split; split; intros H; try discriminate; try (left; lia); try lia.
  - rewrite forallb_legal_true, forallb_legal_false. split; split.
    + intros H. split; [lia | exact H].
    + intros [_ H]. exact H.
    + intros H. now right.
    + intros [H | H]; [lia | exact H].
Qed.

(** ** Shard selection *)

(** The check value of CRC-32/IEEE. *)
Example ChecksumIEEE_check :
  crc32.ChecksumIEEE (stobs "123456789") = 0xcbf43926.
Proof. vm_compute. reflexivity. Qed.

Lemma uint32_small z : 0 <= z < 2 ^ 32 -> uint32 z = z.
Proof. intros H. unfold uint32. now apply Z.mod_small. Qed.

(** With shards, fewer than 2^32 of them, the index is the checksum modulo
    their number. *)
Lemma PickServerIndex_nonempty s key :
  List.length (pool s) <> 0%nat ->
  Z.of_nat (List.length (pool s)) < 2 ^ 32 ->
  PickServerIndex s key
  = Ok (crc32.ChecksumIEEE (stobs key) mod Z.of_nat (List.length (pool s))).
Proof.
  intros Hne Hlen. unfold PickServerIndex.
  destruct (List.length (pool s) =? 0)%nat eqn:E;
    [apply Nat.eqb_eq in E; congruence|].
  rewrite uint32_small by lia.
  destruct (Z.of_nat (List.length (pool s)) =? 0) eqn:E0;
    [lia | reflexivity].
Qed.

(** C5. Shard selection fails with [ErrNoServers] exactly when no shard is
    configured; otherwise (the number of shards fitting the 32 bits of the
    conversion) it returns the CRC-32/IEEE checksum of the bytes of the key
    modulo the number of shards, which depends on nothing but the key and
    that number. *)
Theorem PickServerIndex_selects (s : ServerList) (key : string)
    (Hlen : Z.of_nat (List.length (pool s)) < 2 ^ 32) :
  (PickServerIndex s key = Err ErrNoServers <->
   List.length (pool s) = 0%nat) /\
  (List.length (pool s) <> 0%nat ->
   PickServerIndex s key =
     Ok (crc32.ChecksumIEEE (stobs key)
         mod Z.of_nat (List.length (pool s)))) /\
  (forall s' : ServerList,
     List.length (pool s') = List.length (pool s) ->
     PickServerIndex s' key = PickServerIndex s key).
Proof.
  unfold PickServerIndex. repeat split.
  - destruct (List.length (pool s)) eqn:E; simpl; [reflexivity|].
    destruct (_ =? 0); discriminate.
  - intros ->. reflexivity.
  - intros Hne. now apply PickServerIndex_nonempty.
  - intros s' ->. reflexivity.
Qed.

Lemma PickServerIndex_witness :
  PickServerIndex (mkServerList [nilPool; nilPool; nilPool] 3 []) "123456789"
  = Ok 2.
Proof.
  pose proof (PickServerIndex_selects
                (mkServerList [nilPool; nilPool; nilPool] 3 []) "123456789"
                ltac:(simpl; lia)) as (_ & H & _).
  rewrite H by (simpl; lia). vm_compute. reflexivity.
Defined.

(** X29. The index selected is one of a configured shard: it is never out
    of the range of the pools. *)
Lemma PickServerIndex_range s key i :
  PickServerIndex s key = Ok i -> 0 <= i < Z.of_nat (List.length (pool s)).
Proof.
  unfold PickServerIndex.
  destruct (List.length (pool s) =? 0)%nat eqn:E; [discriminate|].
  apply Nat.eqb_neq in E.
  destruct (uint32 _ =? 0) eqn:E0; [discriminate|].
  intros [= <-]. apply Z.eqb_neq in E0.
  unfold uint32 in *.
  pose proof (Z.mod_pos_bound (Z.of_nat (List.length (pool s))) (2 ^ 32)
                ltac:(lia)) as Hb.
  pose proof (Z.mod_pos_bound (crc32.ChecksumIEEE (stobs key))
                (Z.of_nat (List.length (pool s)) mod 2 ^ 32) ltac:(lia)).
  pose proof (Z.mod_le (Z.of_nat (List.length (pool s))) (2 ^ 32)
                ltac:(lia) ltac:(lia)).
  lia.
Qed.

(** ** Decoding a response *)

Lemma readAtLeast_app cn n bs rest :
  incoming cn = bs ++ rest -> List.length bs = n ->
  readAtLeast cn n = (Ok bs, with_incoming cn rest).
Proof.
  intros Hin Hn. unfold readAtLeast, with_incoming. rewrite Hin.
  rewrite length_app, Hn.
  destruct (n <=? n + List.length rest)%nat eqn:E;
    [|apply Nat.leb_gt in E; lia].
  subst n. now rewrite take_app_length, drop_app_length.
Qed.

Lemma CopyN_Discard_enough cn n :
  0 <= n <= Z.of_nat (List.length (incoming cn)) ->
  CopyN_Discard cn n =
    (None, with_incoming cn (skipn (Z.to_nat n) (incoming cn))).
Proof.
  intros H. unfold CopyN_Discard.
  destruct (n <=? _) eqn:E; [reflexivity | lia].
Qed.

(** The fields of a 24-byte header decode. *)
Lemma header_fields hdr :
  List.length hdr = 24%nat ->
  exists magic status total elb kl,
    hdr !! 0%nat = Some magic /\
    bUint16 (slice 6 8 hdr) = Some status /\
    bUint32 (slice 8 12 hdr) = Some total /\
    hdr !! 4%nat = Some elb /\
    bUint16 (slice 2 4 hdr) = Some kl /\
    0 <= total.
Proof.
  intros H.
  do 25 (destruct hdr as [|? hdr]; try discriminate H).
  cbn. do 5 eexists. repeat split.
  repeat match goal with |- context [Z_of_byte ?b] =>
    pose proof (Z_of_byte_range b); generalize dependent (Z_of_byte b); intros
  end. lia.
Qed.

(** A header that does not begin with the magic byte of a response. *)
Lemma parseResponse_BadMagic rKey cn hdr rest magic :
  incoming cn = hdr ++ rest -> List.length hdr = 24%nat ->
  hdr !! 0%nat = Some magic -> Z_of_byte magic <> respMagic ->
  parseResponse rKey cn = (Err ErrBadMagic, with_incoming cn rest).
Proof.
  intros Hin Hhdr H0 Hm.
  destruct (header_fields hdr Hhdr)
    as (magic' & status & total & elb & kl & H0' & Hs & Ht & H4 & Hk & _).
  unfold parseResponse.
  rewrite (readAtLeast_app cn 24 hdr rest Hin Hhdr).
  rewrite H0' in H0. injection H0 as ->.
  rewrite H0', Hs, Ht, H4, Hk.
  destruct (Z_of_byte magic =? respMagic) eqn:E; [lia | reflexivity].
Qed.

(** C3. Once the 24 bytes of the header are read, decoding fails with
    [ErrBadMagic] when the first of them is not 0x81; and when it is and the
    status is not [respOk], with the [total] bytes of the body in the stream,
    decoding consumes exactly these [total] bytes after the header and
    returns the error of the status, which is [ErrMalformedKey] for
    [respInvalidArgs] with a key the validator rejects and [asError] of the
    status otherwise. *)
Theorem parseResponse_error_paths (rKey : string) (cn : Conn)
    (hdr rest : list byte)
    (Hin : incoming cn = hdr ++ rest)
    (Hhdr : List.length hdr = 24%nat) :
  exists magic status total,
    hdr !! 0%nat = Some magic /\
    bUint16 (slice 6 8 hdr) = Some status /\
    bUint32 (slice 8 12 hdr) = Some total /\
    (Z_of_byte magic <> 129 ->
     parseResponse rKey cn = (Err ErrBadMagic, with_incoming cn rest)) /\
    (Z_of_byte magic = 129 -> status <> respOk ->
     total <= Z.of_nat (List.length rest) ->
     parseResponse rKey cn =
       (Err (status_error rKey status),
        with_incoming cn (skipn (Z.to_nat total) rest))).
Proof.
  destruct (header_fields hdr Hhdr)
    as (magic & status & total & elb & kl & H0 & Hs & Ht & H4 & Hk & Hpos).
  exists magic, status, total. repeat split; try assumption.
  - intros Hm. now apply (parseResponse_BadMagic rKey cn hdr rest magic).
  - intros Hm Hst Htot. unfold parseResponse, status_error.
    rewrite (readAtLeast_app cn 24 hdr rest Hin Hhdr).
    rewrite H0, Hs, Ht, H4, Hk.
    destruct (Z_of_byte magic =? respMagic) eqn:E;
      [|unfold respMagic in E; lia].
    destruct (status =? respOk) eqn:E1; [lia|]. cbn [negb].
    rewrite CopyN_Discard_enough by (cbn; lia). cbn.
    destruct ((status =? respInvalidArgs) && negb (legalKey rKey));
      reflexivity.
Qed.

Lemma parseResponse_error_paths_witness :
  parseResponse "bad key"
    (conn_reading 1 (response_header respInvalidArgs 2 ++ stobs "xyz"))
  = (Err ErrMalformedKey, conn_reading 1 (stobs "z")).
Proof.
  destruct (parseResponse_error_paths "bad key"
              (conn_reading 1 (response_header respInvalidArgs 2
                               ++ stobs "xyz"))
              (response_header respInvalidArgs 2) (stobs "xyz")
              eq_refl eq_refl)
    as (magic & status & total & H0 & Hs & Ht & _ & H).
  vm_compute in H0, Hs, Ht.
  injection H0 as <-. injection Hs as <-. injection Ht as <-.
  rewrite H; [reflexivity | reflexivity | discriminate | simpl; lia].
Defined.

(** ** Storing an item *)

(** Case analysis of a run given as an equation [H]. *)
Ltac run_cases H :=
  repeat (match type of H with
          | context [match ?x with _ => _ end] => destruct x eqn:?
          end; try discriminate H).

(** What a call of [populateOne] that returns leaves in the item: the item
    as it was when the error is not nil, and the item with the cas id of the
    header of the response otherwise. *)
Lemma populateOne_item cmd item cas w item' o w' :
  populateOne cmd item cas w = (Ok (item', o), w') ->
  match o with
  | Some _ => item' = item
  | None =>
      exists cn resp cn' c,
        parseResponse (Key item) cn = (Ok resp, cn') /\
        bUint64 (slice 16 24 (r_hdr resp)) = Some c /\
        item' = set_casid item c
  end.
Proof.
  unfold populateOne, bind, try, ret, pick, switch_err, ignore_err, must,
    panic.
  intros H. run_cases H; injection H as <- <- <-; try reflexivity.
  match goal with
  | Hc : match bUint64 ?x with _ => _ end _ = _ |- _ =>
      destruct (bUint64 x) eqn:Hcas; [|discriminate Hc];
      unfold ret in Hc; injection Hc as <- <-
  end.
  eauto 10.
Qed.

(** C10. A call of [Set], [Add] or [CompareAndSwap] that returns an error
    which is not nil gives the item back as it was given, cas id included;
    one that returns nil changes nothing but the cas id, which it takes from
    bytes 16-23 of the header of the response. *)
Theorem store_error_keeps_item
    (call : Item -> M (Item * option error)) (item item' : Item)
    (o : option error) (w w' : World)
    (Hcall : call = Set_ \/ call = Add \/ call = CompareAndSwap)
    (Hret : call item w = (Ok (item', o), w')) :
  match o with
  | Some _ => item' = item /\ casid item' = casid item
  | None =>
      exists cn resp cn' c,
        parseResponse (Key item) cn = (Ok resp, cn') /\
        bUint64 (slice 16 24 (r_hdr resp)) = Some c /\
        item' = set_casid item c
  end.
Proof.
  assert (He : exists cmd cas, call item = populateOne cmd item cas).
  { destruct Hcall as [-> | [-> | ->]]; eauto. }
  destruct He as (cmd & cas & He). rewrite He in Hret.
  apply populateOne_item in Hret. destruct o; [|exact Hret].
  subst item'. now split.
Qed.


Lemma store_error_keeps_item_witness :
  exists item' w',
    CompareAndSwap example_item
      (one_server (response_header respItemNotStored 0))
    = (Ok (item', Some ErrNotStored), w') /\
    item' = example_item /\ casid item' = casid example_item.
Proof.
  eexists _, _. split; [vm_compute; reflexivity|].
  refine (store_error_keeps_item CompareAndSwap example_item _
            (Some ErrNotStored)
            (one_server (response_header respItemNotStored 0)) _
            (or_intror (or_intror eq_refl)) _).
  vm_compute. reflexivity.
Defined.

(** ** Compare-and-swap on a stale token *)

(** No status is mapped to [ErrCASConflict]. *)
Lemma asError_not_CASConflict r : asError r <> ErrCASConflict.
Proof.
  unfold asError.
  repeat match goal with |- context [if ?b then _ else _] => destruct b end;
    discriminate.
Qed.

Lemma readAtLeast_Err cn n e cn' :
  readAtLeast cn n = (Err e, cn') -> e = io_EOF.
Proof.
  unfold readAtLeast. destruct (n <=? _)%nat; intros [= <- _]; reflexivity.
Qed.

Lemma read_field_Err cn n e cn' :
  read_field cn n = (Err e, cn') -> e = io_EOF.
Proof.
  unfold read_field. destruct (0 <? n); [apply readAtLeast_Err|].
  discriminate.
Qed.

Lemma CopyN_Discard_Err cn n e cn' :
  CopyN_Discard cn n = (Some e, cn') -> e = io_EOF.
Proof.
  unfold CopyN_Discard. destruct (n <=? _); intros [= <- _]; reflexivity.
Qed.

(** The errors of decoding: the transport's, [ErrBadMagic],
    [ErrMalformedKey] and those of a status. *)
Lemma parseResponse_Err rKey cn e cn' :
  parseResponse rKey cn = (Err e, cn') ->
  e = io_EOF \/ e = ErrBadMagic \/ e = ErrMalformedKey \/
  exists status, status <> respOk /\ e = asError status.
Proof.
  unfold parseResponse. intros H.
  run_cases H; injection H as <- <-;
    repeat match goal with
    | Hr : readAtLeast _ _ = (Err _, _) |- _ =>
        apply readAtLeast_Err in Hr; subst
    | Hr : read_field _ _ = (Err _, _) |- _ =>
        apply read_field_Err in Hr; subst
    | Hr : CopyN_Discard _ _ = (Some _, _) |- _ =>
        apply CopyN_Discard_Err in Hr; subst
    end; auto.
  right. right. right. eexists. split; [|reflexivity].
  match goal with Hs : negb (_ =? respOk) = true |- _ =>
    apply negb_true_iff, Z.eqb_neq in Hs; exact Hs end.
Qed.

(** Decoding never fails with [ErrCASConflict]. *)
Lemma parseResponse_not_CASConflict rKey cn cn' :
  parseResponse rKey cn <> (Err ErrCASConflict, cn').
Proof.
  intros H. apply parseResponse_Err in H.
  destruct H as [H | [H | [H | (status & _ & H)]]]; try discriminate H.
  symmetry in H. now apply asError_not_CASConflict in H.
Qed.

(** C2. The server answers a compare-and-swap made with a stale token by
    the status [respKeyExists]; [CompareAndSwap] then returns
    [ErrNotStored], which is not [ErrCASConflict], and the item keeps the
    stale token. *)
Theorem CompareAndSwap_stale_token_NotStored :
  exists w',
    CompareAndSwap example_item
      (one_server (response_header respKeyExists 0))
    = (Ok (example_item, Some ErrNotStored), w') /\
    ErrNotStored <> ErrCASConflict.
Proof.
  eexists. split; [vm_compute; reflexivity | discriminate].
Qed.

(** A failed write fails with an error of the transport. *)
Lemma conn_Write_Err cn buf e cn' :
  conn_Write cn buf = (Some e, cn') -> exists msg, e = ErrIO msg.
Proof.
  unfold conn_Write. destruct (wscript cn) as [|[msg|] rest];
    intros [= <- _]; eauto.
Qed.

Lemma sendConnCommand_Err cn key cmd value cas extras e cn' :
  sendConnCommand cn key cmd value cas extras = (Some e, cn') ->
  exists msg, e = ErrIO msg.
Proof.
  unfold sendConnCommand. intros H.
  run_cases H; injection H as <- <-;
    eapply conn_Write_Err; eassumption.
Qed.

Lemma PickServerIndex_Err s key e :
  PickServerIndex s key = Err e -> e = ErrNoServers.
Proof.
  unfold PickServerIndex. intros H. run_cases H. now injection H as <-.
Qed.

(** [ErrCASConflict] never comes from a response: a store returns it only
    when the pool failed with it on [Get]. *)
Lemma populateOne_CASConflict_from_pool cmd item cas w item' w' :
  populateOne cmd item cas w = (Ok (item', Some ErrCASConflict), w') ->
  exists index w1 w2, GetConnection index w1 = (Err ErrCASConflict, w2).
Proof.
  unfold populateOne, bind, try, pick. intros H.
  destruct (PickServerIndex (servers w) (Key item)) as [index | e |] eqn:Hpick;
    [| injection H as _ He _; apply PickServerIndex_Err in Hpick; congruence
     | discriminate H].
  destruct (GetConnection index w) as [[cn | e |] w1] eqn:Hg;
    [| injection H as _ -> _; eauto | discriminate H].
  unfold ret, switch_err, ignore_err, must, panic in H.
  run_cases H; inversion H; subst; clear H.
  all: try (exfalso; eapply parseResponse_not_CASConflict; eassumption).
  all: match goal with
       | Hs : sendConnCommand _ _ _ _ _ _ = (Some _, _) |- _ =>
           apply sendConnCommand_Err in Hs; destruct Hs; discriminate
       end.
Qed.

(** ** Encoding a request *)

Lemma length_be_bytes n v : List.length (be_bytes n v) = n.
Proof. induction n; simpl; congruence. Qed.

(** Reading back [n] big-endian bytes gives the low [8n] bits. *)
Lemma be_read_be_bytes n v rest acc :
  be_read n (be_bytes n v ++ rest) acc
  = Some (acc * 2 ^ (8 * Z.of_nat n) + v mod 2 ^ (8 * Z.of_nat n)).
Proof.
  revert acc. induction n as [|n IH]; intros acc.
  - simpl. rewrite Z.mod_1_r. f_equal. lia.
  - cbn [be_bytes be_read app]. rewrite IH, Z_of_byte_of_Z. f_equal.
    rewrite Z.shiftr_div_pow2 by lia.
    replace (8 * Z.of_nat (S n)) with (8 * Z.of_nat n + 8) by lia.
    rewrite Z.pow_add_r by lia.
    rewrite (Z.rem_mul_r v (2 ^ (8 * Z.of_nat n)) (2 ^ 8)) by lia.
    change (2 ^ 8) with 256. ring.
Qed.

Lemma be_read_be_bytes_small n v :
  0 <= v < 2 ^ (8 * Z.of_nat n) ->
  be_read n (be_bytes n v) 0 = Some v.
Proof.
  intros H. rewrite <- (app_nil_r (be_bytes n v)), be_read_be_bytes.
  rewrite Z.mod_small by exact H. reflexivity.
Qed.

(** The header, field by field. *)
Lemma request_header_fields key cmd value cas extras :
  request_header key cmd value cas extras
  = [byte_of_Z reqMagic; byte_of_Z cmd]
    ++ be_bytes 2 (Z.of_nat (len key) mod 2 ^ 16)
    ++ [byte_of_Z (Z.of_nat (List.length extras)); x00; x00; x00]
    ++ be_bytes 4 ((Z.of_nat (len key) + Z.of_nat (List.length extras)
                    + Z.of_nat (List.length value)) mod 2 ^ 32)
    ++ [x00; x00; x00; x00]
    ++ be_bytes 8 cas.
Proof. reflexivity. Qed.

Lemma length_request_header key cmd value cas extras :
  List.length (request_header key cmd value cas extras) = 24%nat.
Proof. reflexivity. Qed.

Lemma encode_frame key cmd value cas extras :
  encode key cmd value cas extras
  = request_header key cmd value cas extras ++ extras ++ stobs key ++ value.
Proof.
  unfold encode, sendConnCommand, conn_Write, conn_reading, len.
  cbn [wscript written incoming conn_id snd app].
  destruct extras as [|e extras], (stobs key) as [|k ks],
    value as [|v value]; cbn; rewrite ?app_nil_r, <- ?app_assoc;
    reflexivity.
Qed.

(** What a successful [sendConnCommand] has written is the frame. *)
Lemma sendConnCommand_writes_frame cn key cmd value cas extras cn' :
  sendConnCommand cn key cmd value cas extras = (None, cn') ->
  written cn' = written cn ++ encode key cmd value cas extras.
Proof.
  rewrite encode_frame.
  unfold sendConnCommand, conn_Write, len. intros H.
  assert (Hx : (if (0 <? List.length extras)%nat
                then request_header key cmd value cas extras ++ extras
                else request_header key cmd value cas extras)
               = request_header key cmd value cas extras ++ extras).
  { destruct extras; cbn; now rewrite ?app_nil_r. }
  rewrite Hx in H. clear Hx.
  assert (Hk : forall buf : list byte,
             (if (0 <? List.length (stobs key))%nat
              then buf ++ stobs key else buf) = buf ++ stobs key).
  { intros buf. destruct (stobs key); cbn; now rewrite ?app_nil_r. }
  rewrite Hk in H. clear Hk.
  remember (request_header key cmd value cas extras ++ extras ++ stobs key)
    as buf eqn:Hbuf.
  rewrite <- app_assoc, <- Hbuf in H.
  replace (request_header key cmd value cas extras ++ extras ++ stobs key
           ++ value) with (buf ++ value)
    by (subst buf; now rewrite <- !app_assoc).
  clear Hbuf. destruct cn as [id inc wr ws]. cbn in H |- *.
  destruct ws as [|[msg|] ws]; cbn in H; try discriminate H.
  - destruct value; cbn in H; injection H as <-; cbn;
      now rewrite ?app_nil_r, <- ?app_assoc.
  - destruct value; cbn in H.
    + injection H as <-. cbn. now rewrite app_nil_r.
    + destruct ws as [|[msg|] ws]; cbn in H; try discriminate H;
        injection H as <-; cbn; now rewrite <- ?app_assoc.
Qed.

(** C4 (as amended). For an opcode of 8 bits and a cas value of 64, a key
    shorter than 2^16 bytes, extras shorter than 2^8 bytes and a body
    shorter than 2^32 bytes, the encoded frame has the layout of the
    protocol: the lengths are stored in fields of 16, 8 and 32 bits. *)
Theorem encode_layout (key : string) (cmd : Z) (value : list byte) (cas : Z)
    (extras : list byte)
    (Hcmd : 0 <= cmd < 2 ^ 8)
    (Hcas : 0 <= cas < 2 ^ 64)
    (Hkl : Z.of_nat (len key) < 2 ^ 16)
    (Hel : Z.of_nat (List.length extras) < 2 ^ 8)
    (Hbl : Z.of_nat (List.length extras) + Z.of_nat (len key)
           + Z.of_nat (List.length value) < 2 ^ 32) :
  frame_layout (encode key cmd value cas extras) key cmd value cas extras.
Proof.
  exists (request_header key cmd value cas extras).
  split; [apply encode_frame|]. split; [reflexivity|].
  rewrite request_header_fields.
  change (2 ^ 8) with 256 in Hcmd, Hel.
  repeat apply conj.
  - reflexivity.
  - cbn. rewrite Z_of_byte_of_Z, Z.mod_small by lia. reflexivity.
  - change (bUint16 (be_bytes 2 (Z.of_nat (len key) mod 2 ^ 16))
            = Some (Z.of_nat (len key))).
    rewrite Z.mod_small by lia. apply be_read_be_bytes_small. lia.
  - cbn. rewrite Z_of_byte_of_Z, Z.mod_small by lia. reflexivity.
  - reflexivity.
  - reflexivity.
  - change (bUint32
              (be_bytes 4
                 ((Z.of_nat (len key) + Z.of_nat (List.length extras)
                   + Z.of_nat (List.length value)) mod 2 ^ 32))
            = Some (Z.of_nat (List.length extras) + Z.of_nat (len key)
                    + Z.of_nat (List.length value))).
    rewrite Z.mod_small by lia.
    unfold bUint32. rewrite be_read_be_bytes_small by lia. f_equal. lia.
  - reflexivity.
  - change (bUint64 (be_bytes 8 cas) = Some cas).
    apply be_read_be_bytes_small. exact Hcas.
Qed.

Lemma encode_layout_witness :
  frame_layout (encode "ab" cmdSet (stobs "xyz") 258 (stobs "EEEE"))
    "ab" cmdSet (stobs "xyz") 258 (stobs "EEEE").
Proof.
  apply encode_layout; vm_compute; split; congruence.
Defined.

(** C4 (as stated) fails: the key length is stored in 16 bits, so that the
    frame of a key of 65536 bytes has 0 in bytes 2-3. *)
Lemma long_key_breaks_layout :
  ~ frame_layout (encode (long_key (2 ^ 16)) cmdGet [] 0 [])
      (long_key (2 ^ 16)) cmdGet [] 0 [].
Proof.
  intros (hdr & Hf & Hlen & _ & _ & Hkl & _).
  assert (Hh : hdr = firstn 24 (encode (long_key (2 ^ 16)) cmdGet [] 0 [])).
  { rewrite Hf. symmetry. now apply take_app_length'. }
  rewrite Hh in Hkl. vm_compute in Hkl. discriminate Hkl.
Qed.

(** ** Decoding a frame in full *)

Lemma read_field_app cn n bs rest :
  incoming cn = bs ++ rest -> n = Z.of_nat (List.length bs) ->
  read_field cn n = (Ok bs, with_incoming cn rest).
Proof.
  intros Hin Hn. unfold read_field. destruct (0 <? n) eqn:E.
  - apply readAtLeast_app; [exact Hin | lia].
  - destruct bs; [|cbn in Hn; lia].
    destruct cn; cbn in *; subst; reflexivity.
Qed.

(** The success path of [parseResponse]: a frame with the magic byte of a
    response, status [respOk] and consistent lengths decodes to its header,
    key, extras and value, and is consumed in full. *)
Lemma parseResponse_Ok rKey cn hdr extras key value magic elb :
  incoming cn = hdr ++ extras ++ key ++ value ->
  List.length hdr = 24%nat ->
  hdr !! 0%nat = Some magic -> Z_of_byte magic = respMagic ->
  bUint16 (slice 6 8 hdr) = Some respOk ->
  bUint32 (slice 8 12 hdr)
  = Some (Z.of_nat (List.length extras) + Z.of_nat (List.length key)
          + Z.of_nat (List.length value)) ->
  hdr !! 4%nat = Some elb -> 
  Z_of_byte elb = Z.of_nat (List.length extras) ->
  bUint16 (slice 2 4 hdr) = Some (Z.of_nat (List.length key)) ->
  parseResponse rKey cn
  = (Ok (mkResponse hdr key extras value), with_incoming cn []).
Proof.
  intros Hin Hlen H0 Hm Hs Ht H4 He Hk. unfold parseResponse.
  rewrite (readAtLeast_app cn 24 hdr _ Hin Hlen).
  rewrite H0, Hs, Ht, H4, Hk, Hm, He. rewrite Z.eqb_refl. cbn [negb].
  change (respOk =? respOk) with true. cbn [negb].
  rewrite (read_field_app _ _ extras (key ++ value)) by reflexivity.
  rewrite (read_field_app _ _ key value) by reflexivity.
  rewrite (read_field_app _ _ value []);
    [reflexivity | cbn; now rewrite app_nil_r | lia].
Qed.

(** ** The round trip of a request *)

(** An encoded request never decodes: its first byte is the magic of a
    request. *)
Lemma parseResponse_of_request rKey id key cmd value cas extras :
  fst (parseResponse rKey (conn_reading id (encode key cmd value cas extras)))
  = Err ErrBadMagic.
Proof.
  rewrite (parseResponse_BadMagic rKey _
             (request_header key cmd value cas extras)
             (extras ++ stobs key ++ value) (byte_of_Z reqMagic));
    [reflexivity | apply encode_frame | reflexivity | reflexivity
    | discriminate].
Qed.

(** C9 (as stated) fails: the decoder is the decoder of responses, and the
    frame of a request does not decode. *)
Lemma roundtrip_of_request_fails : ~ roundtrip "a" cmdGet [] 0 [].
Proof.
  intros (resp & cn' & H & _).
  pose proof (parseResponse_of_request "a" 0 "a" cmdGet [] 0 []) as Hbad.
  rewrite H in Hbad. discriminate Hbad.
Qed.

(** C9 (as amended). For a request over a valid key, with an opcode of
    8 bits, a cas value of 64, extras shorter than 2^8 bytes and a body
    shorter than 2^32 bytes, the frame read as a response (with 0x81 as its
    first byte) decodes to the key, the extras and the value of the request
    and is consumed in full, and encoding what it decodes to gives the frame
    of the request again. *)
Theorem roundtrip_as_response (key : string) (cmd : Z) (value : list byte)
    (cas : Z) (extras : list byte)
    (Hkey : legalKey key = true)
    (Hcmd : 0 <= cmd < 2 ^ 8)
    (Hcas : 0 <= cas < 2 ^ 64)
    (Hel : Z.of_nat (List.length extras) < 2 ^ 8)
    (Hbl : Z.of_nat (List.length extras) + Z.of_nat (len key)
           + Z.of_nat (List.length value) < 2 ^ 32) :
  exists resp,
    parseResponse key
      (conn_reading 0 (as_response (encode key cmd value cas extras)))
    = (Ok resp, conn_reading 0 []) /\
    r_key resp = stobs key /\
    r_extras resp = extras /\
    r_value resp = value /\
    reencode resp = Some (encode key cmd value cas extras).
Proof.
  assert (Hkl : Z.of_nat (len key) <= 250).
  { apply legalKey_len in Hkey. lia. }
  change (2 ^ 8) with 256 in Hcmd, Hel.
  set (hdr := <[0%nat := byte_of_Z respMagic]>
                (request_header key cmd value cas extras)).
  exists (mkResponse hdr (stobs key) extras value).
  assert (Hfr : as_response (encode key cmd value cas extras)
                = hdr ++ extras ++ stobs key ++ value).
  { rewrite encode_frame. reflexivity. }
  split; [|repeat apply conj; try reflexivity].
  - rewrite Hfr.
    change (conn_reading 0 [])
      with (with_incoming
              (conn_reading 0 (hdr ++ extras ++ stobs key ++ value)) []).
    apply (parseResponse_Ok key _ hdr extras (stobs key) value
             (byte_of_Z respMagic)
             (byte_of_Z (Z.of_nat (List.length extras)))).
    + reflexivity.
    + reflexivity.
    + reflexivity.
    + reflexivity.
    + reflexivity.
    + change (bUint32
                (be_bytes 4
                   ((Z.of_nat (len key) + Z.of_nat (List.length extras)
                     + Z.of_nat (List.length value)) mod 2 ^ 32))
              = Some (Z.of_nat (List.length extras)
                      + Z.of_nat (List.length (stobs key))
                      + Z.of_nat (List.length value))).
      unfold len in *. rewrite Z.mod_small by lia.
      unfold bUint32. rewrite be_read_be_bytes_small by lia. f_equal. lia.
    + reflexivity.
    + rewrite Z_of_byte_of_Z. apply Z.mod_small. lia.
    + change (bUint16 (be_bytes 2 (Z.of_nat (len key) mod 2 ^ 16))
              = Some (Z.of_nat (List.length (stobs key)))).
      unfold len in *. rewrite Z.mod_small by lia.
      apply be_read_be_bytes_small. lia.
  - unfold reencode. cbn [r_hdr r_key r_value r_extras].
    change (hdr !! 1%nat) with (Some (byte_of_Z cmd)).
    change (bUint64 (slice 16 24 hdr)) with (bUint64 (be_bytes 8 cas)).
    unfold bUint64. rewrite be_read_be_bytes_small by exact Hcas.
    rewrite Z_of_byte_of_Z, Z.mod_small by lia.
    unfold bstos, stobs. now rewrite string_of_list_byte_of_string.
Qed.

Lemma roundtrip_as_response_witness :
  exists resp,
    parseResponse "ab"
      (conn_reading 0
         (as_response (encode "ab" cmdSet (stobs "xyz") 258 (stobs "EEEE"))))
    = (Ok resp, conn_reading 0 []) /\
    r_key resp = stobs "ab" /\
    r_extras resp = stobs "EEEE" /\
    r_value resp = stobs "xyz" /\
    reencode resp = Some (encode "ab" cmdSet (stobs "xyz") 258 (stobs "EEEE")).
Proof.
  apply roundtrip_as_response; vm_compute; try split; congruence.
Defined.

(** ** The batch get *)

Lemma readAtLeast_length cn n r cn' :
  readAtLeast cn n = (r, cn') ->
  (List.length (incoming cn') <= List.length (incoming cn))%nat /\
  (forall bs, r = Ok bs ->
     (List.length (incoming cn') + n = List.length (incoming cn))%nat).
Proof.
  unfold readAtLeast. destruct (n <=? _)%nat eqn:E; intros [= <- <-]; cbn.
  - apply Nat.leb_le in E. rewrite length_skipn. split; [lia|]. intros; lia.
  - split; [lia | discriminate].
Qed.

Lemma read_field_length cn n r cn' :
  read_field cn n = (r, cn') ->
  (List.length (incoming cn') <= List.length (incoming cn))%nat.
Proof.
  unfold read_field. destruct (0 <? n).
  - intros H. now apply readAtLeast_length in H.
  - intros [= <- <-]. lia.
Qed.

(** A response decoded takes at least its header off the stream. *)
Lemma parseResponse_consumes rKey cn resp cn' :
  parseResponse rKey cn = (Ok resp, cn') ->
  (List.length (incoming cn') + 24 <= List.length (incoming cn))%nat.
Proof.
  unfold parseResponse. intros H.
  destruct (readAtLeast cn 24) as [[hdr | e |] cn1] eqn:Hr;
    try discriminate H.
  apply readAtLeast_length in Hr. destruct Hr as [_ Hr].
  specialize (Hr hdr eq_refl).
  run_cases H.
  repeat match goal with
         | Hf : read_field _ _ = _ |- _ => apply read_field_length in Hf
         end.
  injection H as _ <-. lia.
Qed.

(** X30. The reading loop of a task ends on every stream: each response it
    decodes takes at least the 24 bytes of its header off the stream, so
    that as many turns as the stream has bytes, and one more, are never used
    up. *)
Lemma read_items_fuel fuel cn :
  (List.length (incoming cn) < fuel)%nat -> read_items fuel cn <> None.
Proof.
  revert cn. induction fuel as [|fuel IH]; intros cn Hlt; [lia|].
  cbn [read_items].
  destruct (parseResponse "" cn) as [[resp | e |] cn1] eqn:Hp;
    try discriminate.
  destruct (List.length (r_key resp) =? 0)%nat; [discriminate|].
  destruct (item_of_response _ resp); [|discriminate].
  apply parseResponse_consumes in Hp.
  specialize (IH cn1 ltac:(lia)).
  destruct (read_items fuel cn1) as [[[items | e |] cn2]|];
    try discriminate. congruence.
Qed.

(** [read_items] has no error to return: an error ends the loop. *)
Lemma read_items_not_Err fuel cn e cn' :
  read_items fuel cn <> Some (Err e, cn').
Proof.
  revert cn. induction fuel as [|fuel IH]; intros cn; [discriminate|].
  cbn [read_items].
  destruct (parseResponse "" cn) as [[resp | e0 |] cn1]; try discriminate.
  destruct (List.length (r_key resp) =? 0)%nat; [discriminate|].
  destruct (item_of_response _ resp); [|discriminate].
  specialize (IH cn1).
  destruct (read_items fuel cn1) as [[[items | e1 |] cn2]|];
    try discriminate. congruence.
Qed.

(** What a successful [GetConnection] leaves: the same number of pools, one
    of them at the index, and the acquisition in the trace. *)
Lemma GetConnection_Ok index w cn w1 :
  GetConnection index w = (Ok cn, w1) ->
  (poolLen (servers w1) <? index) = false /\
  is_Some (pool (servers w1) !! Z.to_nat index) /\
  List.length (pool (servers w1)) = List.length (pool (servers w)) /\
  trace w1 = trace w ++ [EvGet index cn].
Proof.
  unfold GetConnection. intros H. run_cases H. injection H as <- <-. cbn.
  repeat apply conj; try assumption; try reflexivity.
  - rewrite list_lookup_insert_eq; [eauto|].
    eapply lookup_lt_Some; eassumption.
  - apply length_insert.
Qed.

(** Closing or returning a connection acquired at this index succeeds. *)
Lemma switch_err_Ok index cn err w :
  (poolLen (servers w) <? index) = false ->
  is_Some (pool (servers w) !! Z.to_nat index) ->
  switch_err index cn err w
  = (Ok tt,
     mkWorld (servers w)
       (trace w ++ [if returns_to_pool err then EvPut index cn
                    else EvClose index cn])).
Proof.
  intros Hlen [p Hp].
  unfold switch_err, ignore_err, PutConnection, CloseConnection.
  destruct (returns_to_pool err); rewrite Hlen, Hp; reflexivity.
Qed.

(** A task that aborts sends nothing on its channel, and returns. *)
Lemma GetMulti_task_aborts serverIndex keys w :
  task_aborts serverIndex keys w ->
  exists w', GetMulti_task serverIndex keys w = (Ok [], w').
Proof.
  intros [e w1 Hg | cn w1 err cn1 Hg Hs | cn w1 cn1 err cn2 Hg Hs Hn];
    unfold GetMulti_task; rewrite Hg; [eauto | |].
  - rewrite Hs. apply GetConnection_Ok in Hg. destruct Hg as (Hl & Hp & _).
    unfold bind. rewrite (switch_err_Ok _ _ _ _ Hl Hp). cbn. eauto.
  - rewrite Hs, Hn. apply GetConnection_Ok in Hg.
    destruct Hg as (Hl & Hp & _).
    unfold bind. rewrite (switch_err_Ok _ _ _ _ Hl Hp). cbn. eauto.
Qed.

(** A task has no error to return. *)
Lemma GetMulti_task_not_Err serverIndex keys w e w' :
  GetMulti_task serverIndex keys w <> (Err e, w').
Proof.
  unfold GetMulti_task.
  destruct (GetConnection serverIndex w) as [[cn | e0 |] w1] eqn:Hg;
    try discriminate.
  apply GetConnection_Ok in Hg. destruct Hg as (Hl & Hp & _).
  destruct (send_keys cn keys) as [[err|] cn1].
  { unfold bind. rewrite (switch_err_Ok _ _ _ _ Hl Hp). discriminate. }
  destruct (sendConnCommand cn1 "" cmdNoop [] 0 []) as [[err|] cn2].
  { unfold bind. rewrite (switch_err_Ok _ _ _ _ Hl Hp). discriminate. }
  destruct (read_items _ cn2) as [[r cn3]|] eqn:Hr; [|discriminate].
  intros [= -> ->]. now apply read_items_not_Err in Hr.
Qed.

(** The tasks that all return give [run_tasks] their items, in order. *)
Lemma run_tasks_of_tasks_run groups w itemss w' :
  tasks_run groups w itemss w' ->
  run_tasks groups w = (Ok (concat itemss), w').
Proof.
  induction 1 as [w | addr keys rest w items w1 more w2 Ht _ IH];
    [reflexivity|].
  cbn [run_tasks concat]. unfold bind. rewrite Ht.
  change ((run more <- run_tasks rest ;; ret (items ++ more)) w1
          = (Ok (items ++ concat more), w2)).
  unfold bind. now rewrite IH.
Qed.

(** The tasks all return, or one of them panics. *)
Lemma run_tasks_total groups w :
  (exists itemss w', tasks_run groups w itemss w') \/
  (exists w', run_tasks groups w = (Panic, w')).
Proof.
  revert w. induction groups as [|[addr keys] rest IH]; intros w.
  - left. exists [], w. constructor.
  - destruct (GetMulti_task addr keys w) as [[items | e |] w1] eqn:Ht.
    + destruct (IH w1) as [(more & w2 & Hm) | (w2 & Hp)].
      * left. exists (items :: more), w2. econstructor; eassumption.
      * right. exists w2. cbn [run_tasks]. unfold bind. rewrite Ht.
        change ((run more <- run_tasks rest ;; ret (items ++ more)) w1
                = (Panic, w2)).
        unfold bind. now rewrite Hp.
    + now apply GetMulti_task_not_Err in Ht.
    + right. exists w1. cbn [run_tasks]. unfold bind. now rewrite Ht.
Qed.

Lemma run_tasks_not_Err groups w e w' : run_tasks groups w <> (Err e, w').
Proof.
  destruct (run_tasks_total groups w) as [(itemss & w2 & H) | (w2 & H)].
  - apply run_tasks_of_tasks_run in H. rewrite H. discriminate.
  - rewrite H. discriminate.
Qed.

(** With a shard to pick, every key finds its group. *)
Lemma group_keys_Ok s keys keyMap :
  (0 < List.length (pool s))%nat ->
  Z.of_nat (List.length (pool s)) < 2 ^ 32 ->
  exists keyMap', group_keys s keys keyMap = Ok keyMap'.
Proof.
  intros Hpos Hlt. revert keyMap.
  induction keys as [|key keys IH]; intros keyMap; cbn [group_keys];
    [eauto|].
  rewrite PickServerIndex_nonempty by (try assumption; lia). apply IH.
Qed.

(** C7. On a client with at least one shard, [GetMulti] groups the keys and
    never returns an error that is not nil, whatever happens to the tasks;
    a task that fails to acquire its connection or to send one of its
    requests returns without an item and without an error; and when the
    tasks have all returned, aborted or not, [GetMulti] returns, with a nil
    error, the mapping that merges what each has produced (the only other
    outcome is a panic, on extras too short for the flags). *)
Theorem GetMulti_nil_error (keys : list string) (w : World)
    (Hpos : (0 < List.length (pool (servers w)))%nat)
    (Hlt : Z.of_nat (List.length (pool (servers w))) < 2 ^ 32) :
  exists keyMap,
    group_keys (servers w) keys ∅ = Ok keyMap /\
    (forall e w', GetMulti keys w <> (Err e, w')) /\
    (forall serverIndex ks w0,
       task_aborts serverIndex ks w0 ->
       exists w1, GetMulti_task serverIndex ks w0 = (Ok [], w1)) /\
    (forall itemss w',
       tasks_run (map_to_list keyMap) w itemss w' ->
       GetMulti keys w = (Ok (merge_items (concat itemss)), w')) /\
    ((exists itemss w', tasks_run (map_to_list keyMap) w itemss w') \/
     (exists w', GetMulti keys w = (Panic, w'))).
Proof.
  destruct (group_keys_Ok (servers w) keys ∅ Hpos Hlt) as [keyMap Hg].
  exists keyMap. split; [exact Hg|].
  assert (HG : GetMulti keys w
               = (run items <- run_tasks (map_to_list keyMap) ;;
                  ret (merge_items items)) w).
  { unfold GetMulti. now rewrite Hg. }
  repeat apply conj.
  - intros e w'. rewrite HG. unfold bind.
    destruct (run_tasks (map_to_list keyMap) w) as [[items | e0 |] w1] eqn:Hr;
      try discriminate.
    now apply run_tasks_not_Err in Hr.
  - intros serverIndex ks w0. apply GetMulti_task_aborts.
  - intros itemss w' Ht. rewrite HG. unfold bind.
    now rewrite (run_tasks_of_tasks_run _ _ _ _ Ht).
  - destruct (run_tasks_total (map_to_list keyMap) w)
      as [Hall | (w' & Hp)]; [now left|].
    right. exists w'. rewrite HG. unfold bind. now rewrite Hp.
Qed.

Lemma GetMulti_nil_error_witness :
  exists keyMap,
    group_keys (servers one_down) ["d"; "a"] ∅ = Ok keyMap /\
    (forall e w', GetMulti ["d"; "a"] one_down <> (Err e, w')) /\
    (forall serverIndex ks w0,
       task_aborts serverIndex ks w0 ->
       exists w1, GetMulti_task serverIndex ks w0 = (Ok [], w1)) /\
    (forall itemss w',
       tasks_run (map_to_list keyMap) one_down itemss w' ->
       GetMulti ["d"; "a"] one_down
       = (Ok (merge_items (concat itemss)), w')) /\
    ((exists itemss w', tasks_run (map_to_list keyMap) one_down itemss w') \/
     (exists w', GetMulti ["d"; "a"] one_down = (Panic, w'))).
Proof.
  apply GetMulti_nil_error; vm_compute; [lia | reflexivity].
Defined.

(** With the server of ["d"] down, the batch get of ["d"] and ["a"] returns
    the item of ["a"] and a nil error. *)
Example GetMulti_one_down :
  PickServerIndex (servers one_down) "d" = Ok 0 /\
  PickServerIndex (servers one_down) "a" = Ok 1 /\
  task_aborts 0 ["d"] one_down /\
  fst (GetMulti ["d"; "a"] one_down)
  = Ok {[ "a" := mkItem "a" (stobs "1") 123 0 7 ]}.
Proof.
  repeat apply conj; try (vm_compute; reflexivity).
  eapply abort_acquire. vm_compute. reflexivity.
Qed.

(** ** The names of the servers and the flush *)

Lemma lookup_repeat {A} (x : A) n i :
  (i < n)%nat -> repeat x n !! i = Some x.
Proof.
  revert i. induction n as [|n IH]; intros [|i] Hi; cbn; try lia;
    [reflexivity | apply IH; lia].
Qed.

Lemma NewServerList_loop_Ok net configs :
  forall i servers n names servers' n' names',
    NewServerList_loop net configs i servers n names
    = Ok (servers', n', names') ->
    names' = names ++ map Server configs /\
    n' = n + Z.of_nat (List.length configs) /\
    List.length servers' = List.length servers.
Proof.
  induction configs as [|config configs IH];
    intros i servers n names servers' n' names' H; cbn [NewServerList_loop] in H.
  - injection H as <- <- <-. cbn. rewrite app_nil_r. repeat split; lia.
  - run_cases H. apply IH in H. destruct H as (-> & -> & ->).
    cbn [map List.length]. rewrite <- app_assoc, length_insert.
    repeat split; lia.
Qed.

(** The names [NewServerList] leaves in the list: as many empty strings as
    there are servers, and after them the addresses configured; so that the
    name at the index of a server is the empty string. *)
Lemma NewServerList_names net configs s :
  NewServerList net configs = Ok s ->
  serversNames s
  = repeat EmptyString (List.length configs) ++ map Server configs /\
  List.length (pool s) = List.length configs /\
  forall index,
    0 <= index < Z.of_nat (List.length configs) ->
    Name s index = Some EmptyString.
Proof.
  unfold NewServerList. intros H.
  destruct (NewServerList_loop _ _ _ _ _ _) as [[[servers n] names] | e |] eqn:Hl;
    try discriminate H.
  injection H as <-. apply NewServerList_loop_Ok in Hl.
  destruct Hl as (-> & -> & Hlen). cbn [serversNames pool].
  rewrite repeat_length in Hlen.
  repeat apply conj; [reflexivity | exact Hlen |].
  intros index Hi. unfold Name. cbn [serversNames].
  rewrite lookup_app_l by (rewrite repeat_length; lia).
  apply lookup_repeat. lia.
Qed.

(** C6. Of three servers the second is unreachable: [Flush] sends the flush
    request to the first and to the third, and returns one error; but the
    text of that error gives the empty string for the name of the server
    that failed, and not the address it was configured with, because
    [Name] reads the names at the indices where [NewServerList] left the
    empty strings it made the slice with. *)
Theorem Flush_error_lacks_server_name :
  exists w',
    Flush 0 second_down
    = (Err (ErrNew "failed to flush some servers: : connection refused"),
       w') /\
    requests_of (trace w')
    = [(0, encode "" cmdFlush [] 0 []); (2, encode "" cmdFlush [] 0 [])] /\
    Name (servers second_down) 1 = Some EmptyString /\
    serversNames (servers second_down)
    = [""; ""; ""; "a:11211"; "b:11211"; "c:11211"]%string.
Proof.
  eexists. repeat apply conj; vm_compute; reflexivity.
Qed.

(** ** The lifecycle of the connections *)

Lemma conn_Write_conn_id cn buf r cn' :
  conn_Write cn buf = (r, cn') -> conn_id cn' = conn_id cn.
Proof.
  unfold conn_Write. destruct (wscript cn) as [|[msg|] rest];
    intros [= _ <-]; reflexivity.
Qed.

Lemma sendConnCommand_conn_id cn key cmd value cas extras r cn' :
  sendConnCommand cn key cmd value cas extras = (r, cn') ->
  conn_id cn' = conn_id cn.
Proof.
  unfold sendConnCommand. intros H.
  run_cases H; injection H as _ <-;
    repeat match goal with
           | Hw : conn_Write _ _ = _ |- _ => apply conn_Write_conn_id in Hw
           end; congruence.
Qed.

Lemma readAtLeast_conn_id cn n r cn' :
  readAtLeast cn n = (r, cn') -> conn_id cn' = conn_id cn.
Proof.
  unfold readAtLeast. destruct (n <=? _)%nat; intros [= _ <-]; reflexivity.
Qed.

Lemma read_field_conn_id cn n r cn' :
  read_field cn n = (r, cn') -> conn_id cn' = conn_id cn.
Proof.
  unfold read_field. destruct (0 <? n); [apply readAtLeast_conn_id|].
  now intros [= _ <-].
Qed.

Lemma CopyN_Discard_conn_id cn n r cn' :
  CopyN_Discard cn n = (r, cn') -> conn_id cn' = conn_id cn.
Proof.
  unfold CopyN_Discard. destruct (n <=? _); intros [= _ <-]; reflexivity.
Qed.

Lemma parseResponse_conn_id rKey cn r cn' :
  parseResponse rKey cn = (r, cn') -> conn_id cn' = conn_id cn.
Proof.
  unfold parseResponse. intros H.
  run_cases H; injection H as _ <-;
    repeat match goal with
           | Hr : readAtLeast _ _ = _ |- _ => apply readAtLeast_conn_id in Hr
           | Hr : read_field _ _ = _ |- _ => apply read_field_conn_id in Hr
           | Hr : CopyN_Discard _ _ = _ |- _ =>
               apply CopyN_Discard_conn_id in Hr
           end; congruence.
Qed.

Lemma readAtLeast_Ok_length cn n bs cn' :
  readAtLeast cn n = (Ok bs, cn') -> List.length bs = n.
Proof.
  unfold readAtLeast. destruct (n <=? _)%nat eqn:E; intros [= <- _].
  apply Nat.leb_le in E. rewrite length_take. lia.
Qed.

Lemma readAtLeast_not_Panic cn n cn' : readAtLeast cn n <> (Panic, cn').
Proof. unfold readAtLeast. destruct (n <=? _)%nat; discriminate. Qed.

Lemma read_field_not_Panic cn n cn' : read_field cn n <> (Panic, cn').
Proof.
  unfold read_field. destruct (0 <? n);
    [apply readAtLeast_not_Panic | discriminate].
Qed.

(** Decoding does not panic: its indices are within the header. *)
Lemma parseResponse_not_Panic rKey cn cn' :
  parseResponse rKey cn <> (Panic, cn').
Proof.
  unfold parseResponse. intros H.
  destruct (readAtLeast cn 24) as [[hdr | e |] cn1] eqn:Hr;
    try discriminate H.
  - apply readAtLeast_Ok_length in Hr.
    destruct (header_fields hdr Hr)
      as (magic & status & total & elb & kl & -> & -> & -> & -> & -> & _)
      in H.
    run_cases H;
      repeat match goal with
             | Hf : read_field _ _ = (Panic, _) |- _ =>
                 now apply read_field_not_Panic in Hf
             end.
  - now apply readAtLeast_not_Panic in Hr.
Qed.

Lemma GetConnection_not_Ok index w r w1 :
  GetConnection index w = (r, w1) -> (forall cn, r <> Ok cn) ->
  trace w1 = trace w.
Proof.
  unfold GetConnection. intros H Hr.
  run_cases H; injection H as <- <-; try reflexivity.
  now destruct (Hr cn).
Qed.

Lemma returns_to_pool_ErrIO msg : returns_to_pool (Some (ErrIO msg)) = false.
Proof. reflexivity. Qed.

(** [_ = c.servers.CloseConnection(serverIndex, cn)] on a connection
    acquired at this index. *)
Lemma CloseConnection_Ok index cn w :
  (poolLen (servers w) <? index) = false ->
  is_Some (pool (servers w) !! Z.to_nat index) ->
  ignore_err (CloseConnection index cn) w
  = (Ok tt, mkWorld (servers w) (trace w ++ [EvClose index cn])).
Proof.
  intros Hlen [p Hp]. unfold ignore_err, CloseConnection.
  rewrite Hlen, Hp. reflexivity.
Qed.

Lemma PutConnection_Ok index cn w :
  (poolLen (servers w) <? index) = false ->
  is_Some (pool (servers w) !! Z.to_nat index) ->
  ignore_err (PutConnection index cn) w
  = (Ok tt, mkWorld (servers w) (trace w ++ [EvPut index cn])).
Proof.
  intros Hlen [p Hp]. unfold ignore_err, PutConnection.
  rewrite Hlen, Hp. reflexivity.
Qed.

(** The end of a run from the world [w1] a connection was acquired in: the
    policy is applied once the connection is put back or closed according
    to the error. *)
Lemma policy_applied_settle tr0 index cn cn' err s w1 :
  trace w1 = tr0 ++ [EvGet index cn] ->
  conn_id cn' = conn_id cn ->
  policy_applied tr0
    (trace (mkWorld s
              (trace w1 ++ [if returns_to_pool err then EvPut index cn'
                            else EvClose index cn'])))
    err.
Proof.
  intros Htr Hid. right. exists index, cn, cn'. split; [exact Hid|].
  cbn [trace]. rewrite Htr, <- app_assoc. reflexivity.
Qed.

(** Steps of the proofs below: the connection acquired, the request that
    fails to be sent, and the response. *)
Ltac lifecycle_acquire Hg :=
  let Hl := fresh "Hl" in
  let Hp := fresh "Hp" in
  let Htr := fresh "Htr" in
  pose proof (GetConnection_Ok _ _ _ _ Hg) as (Hl & Hp & _ & Htr).

Ltac lifecycle_done :=
  match goal with
  | Hs : sendConnCommand ?cn _ _ _ _ _ = (_, ?cn1),
    Hq : parseResponse _ ?cn1 = (_, ?cn2),
    Htr : trace _ = _ ++ [EvGet ?index ?cn]
    |- policy_applied _ _ ?r =>
      let err := eval cbn in r in
      apply (policy_applied_settle _ index cn cn2 err); [exact Htr|];
      apply sendConnCommand_conn_id in Hs;
      apply parseResponse_conn_id in Hq; congruence
  end.

(** X24. [Get] applies the lifecycle policy: whatever it returns, either no
    connection was acquired, or one was and it was then put back in the pool
    when the error returned is nil, [ErrCacheMiss], [ErrCASConflict],
    [ErrNotStored] or [ErrBadIncrDec], and closed on any other - a failed
    write included. *)
Lemma Get_lifecycle key w r w' :
  Get key w = (r, w') -> policy_applied (trace w) (trace w') (err_of r).
Proof.
  unfold Get, bind, pick. intros H.
  destruct (PickServerIndex (servers w) key) as [index | e |];
    [|injection H as <- <-; now left ..].
  destruct (GetConnection index w) as [[cn | e |] w1] eqn:Hg.
  2,3: injection H as <- <-; left;
       apply (GetConnection_not_Ok _ _ _ _ Hg); discriminate.
  lifecycle_acquire Hg.
  destruct (sendConnCommand cn key cmdGet [] 0 []) as [[err|] cn1] eqn:Hs.
  { rewrite (CloseConnection_Ok _ _ _ Hl Hp) in H. injection H as <- <-.
    destruct (sendConnCommand_Err _ _ _ _ _ _ _ _ Hs) as [msg ->].
    apply (policy_applied_settle _ index cn cn1 (Some (ErrIO msg)));
      [exact Htr|].
    now apply sendConnCommand_conn_id in Hs. }
  destruct (parseResponse key cn1) as [[resp | e |] cn2] eqn:Hq.
  - rewrite (switch_err_Ok _ _ _ _ Hl Hp) in H. unfold must in H.
    destruct (item_of_response _ resp); injection H as <- <-; lifecycle_done.
  - rewrite (switch_err_Ok _ _ _ _ Hl Hp) in H. injection H as <- <-.
    lifecycle_done.
  - now apply parseResponse_not_Panic in Hq.
Qed.

(** X26. [Delete] applies the lifecycle policy, by the error it returns. *)
Lemma Delete_lifecycle key w r w' :
  Delete key w = (r, w') -> policy_applied (trace w) (trace w') (err_of r).
Proof.
  unfold Delete, bind, pick. intros H.
  destruct (PickServerIndex (servers w) key) as [index | e |];
    [|injection H as <- <-; now left ..].
  destruct (GetConnection index w) as [[cn | e |] w1] eqn:Hg.
  2,3: injection H as <- <-; left;
       apply (GetConnection_not_Ok _ _ _ _ Hg); discriminate.
  lifecycle_acquire Hg.
  destruct (sendConnCommand cn key cmdDelete [] 0 []) as [[err|] cn1] eqn:Hs.
  { rewrite (CloseConnection_Ok _ _ _ Hl Hp) in H. injection H as <- <-.
    destruct (sendConnCommand_Err _ _ _ _ _ _ _ _ Hs) as [msg ->].
    apply (policy_applied_settle _ index cn cn1 (Some (ErrIO msg)));
      [exact Htr|].
    now apply sendConnCommand_conn_id in Hs. }
  destruct (parseResponse key cn1) as [[resp | e |] cn2] eqn:Hq.
  - rewrite (switch_err_Ok _ _ _ _ Hl Hp) in H. injection H as <- <-.
    lifecycle_done.
  - rewrite (switch_err_Ok _ _ _ _ Hl Hp) in H. injection H as <- <-.
    lifecycle_done.
  - now apply parseResponse_not_Panic in Hq.
Qed.

(** X27. [Increment] and [Decrement] apply the lifecycle policy, by the
    error they return (nil when they panic on a value too short). *)
Lemma incrDecr_lifecycle cmd key delta w r w' :
  incrDecr cmd key delta w = (r, w') ->
  policy_applied (trace w) (trace w') (err_of r).
Proof.
  unfold incrDecr, bind, pick. intros H.
  destruct (PickServerIndex (servers w) key) as [index | e |];
    [|injection H as <- <-; now left ..].
  destruct (GetConnection index w) as [[cn | e |] w1] eqn:Hg.
  2,3: injection H as <- <-; left;
       apply (GetConnection_not_Ok _ _ _ _ Hg); discriminate.
  lifecycle_acquire Hg.
  destruct (sendConnCommand cn key cmd [] 0 _) as [[err|] cn1] eqn:Hs.
  { rewrite (CloseConnection_Ok _ _ _ Hl Hp) in H. injection H as <- <-.
    destruct (sendConnCommand_Err _ _ _ _ _ _ _ _ Hs) as [msg ->].
    apply (policy_applied_settle _ index cn cn1 (Some (ErrIO msg)));
      [exact Htr|].
    now apply sendConnCommand_conn_id in Hs. }
  destruct (parseResponse key cn1) as [[resp | e |] cn2] eqn:Hq.
  - rewrite (switch_err_Ok _ _ _ _ Hl Hp) in H. unfold must in H.
    destruct (bUint64 (r_value resp)); injection H as <- <-; lifecycle_done.
  - rewrite (switch_err_Ok _ _ _ _ Hl Hp) in H. injection H as <- <-.
    lifecycle_done.
  - now apply parseResponse_not_Panic in Hq.
Qed.

(** X25. [Set], [Add] and [CompareAndSwap] apply the lifecycle policy, by
    the error they return. *)
Lemma populateOne_lifecycle cmd item cas w r w' :
  populateOne cmd item cas w = (r, w') ->
  policy_applied (trace w) (trace w')
    (match r with Ok (_, o) => o | _ => None end).
Proof.
  unfold populateOne, bind, try, pick. intros H.
  destruct (PickServerIndex (servers w) (Key item)) as [index | e |];
    [|injection H as <- <-; now left ..].
  destruct (GetConnection index w) as [[cn | e |] w1] eqn:Hg.
  2,3: injection H as <- <-; left;
       apply (GetConnection_not_Ok _ _ _ _ Hg); discriminate.
  lifecycle_acquire Hg.
  destruct (sendConnCommand cn (Key item) cmd (Value item) cas _)
    as [[err|] cn1] eqn:Hs.
  { rewrite (CloseConnection_Ok _ _ _ Hl Hp) in H. injection H as <- <-.
    destruct (sendConnCommand_Err _ _ _ _ _ _ _ _ Hs) as [msg ->].
    apply (policy_applied_settle _ index cn cn1 (Some (ErrIO msg)));
      [exact Htr|].
    now apply sendConnCommand_conn_id in Hs. }
  destruct (parseResponse (Key item) cn1) as [[resp | e |] cn2] eqn:Hq.
  - rewrite (PutConnection_Ok _ _ _ Hl Hp) in H. unfold must in H.
    destruct (bUint64 (slice 16 24 (r_hdr resp))); injection H as <- <-;
      apply (policy_applied_settle _ index cn cn2 None); try exact Htr;
      apply sendConnCommand_conn_id in Hs;
      apply parseResponse_conn_id in Hq; congruence.
  - rewrite (switch_err_Ok _ _ _ _ Hl Hp) in H. injection H as <- <-.
    lifecycle_done.
  - now apply parseResponse_not_Panic in Hq.
Qed.

(** One [Get] on the pool at an index in range: the pool is popped, and the
    acquisition is in the trace when a connection comes out. *)
Lemma GetConnection_pops index w p :
  (poolLen (servers w) <? index) = false ->
  pool (servers w) !! Z.to_nat index = Some p ->
  exists r tr,
    GetConnection index w
    = (r, mkWorld (set_pool (servers w) (Z.to_nat index) (pop p))
                  (trace w ++ tr)) /\
    r <> Panic /\
    tr = match r with Ok cn => [EvGet index cn] | _ => [] end.
Proof.
  intros Hl Hp. unfold GetConnection. rewrite Hl, Hp.
  destruct p as [[|[cn | e] rest]]; cbn [gets].
  - exists (Err ErrPoolExhausted), []. repeat split; [|discriminate].
    f_equal. destruct w as [[ps n names] tr]. cbn in *.
    unfold set_pool, pop. cbn. rewrite app_nil_r.
    now rewrite list_insert_id.
  - exists (Ok cn), [EvGet index cn]. repeat split. discriminate.
  - exists (Err e), []. rewrite app_nil_r. repeat split. discriminate.
Qed.

Lemma settled_app tr1 tr2 : settled tr1 -> settled tr2 -> settled (tr1 ++ tr2).
Proof.
  induction 1; intros H2; cbn; [exact H2 | |]; constructor; auto.
Qed.

(** The loop of [Flush] over [n] servers from [serverIndex] on: it comes to
    its end whatever the servers do, each of their pools is asked for one
    connection, and every connection it acquires is put back or closed. *)
Lemma Flush_loop_every_server n :
  forall serverIndex extras failed errs w,
    wf_servers (servers w) ->
    0 <= serverIndex ->
    serverIndex + Z.of_nat n <= Z.of_nat (List.length (pool (servers w))) ->
    List.length failed = List.length errs ->
    exists failed' errs' w' tr,
      Flush_loop n serverIndex extras failed errs w
      = (Ok (failed', errs'), w') /\
      List.length failed' = List.length errs' /\
      poolLen (servers w') = poolLen (servers w) /\
      serversNames (servers w') = serversNames (servers w) /\
      List.length (pool (servers w')) = List.length (pool (servers w)) /\
      (forall i : nat,
         pool (servers w') !! i
         = if decide (serverIndex <= Z.of_nat i < serverIndex + Z.of_nat n)
           then pop <$> pool (servers w) !! i
           else pool (servers w) !! i) /\
      trace w' = trace w ++ tr /\ settled tr.
Proof.
  induction n as [|n IH]; intros serverIndex extras failed errs w Hwf H0 Hn Hfe.
  { exists failed, errs, w, []. cbn [Flush_loop]. unfold ret.
    repeat apply conj; try reflexivity; try assumption.
    - intros i. destruct (decide _); [lia | reflexivity].
    - now rewrite app_nil_r.
    - constructor. }
  destruct Hwf as [Hpl Hnames].
  assert (Hl : (poolLen (servers w) <? serverIndex) = false) by lia.
  destruct (lookup_lt_is_Some_2 (pool (servers w)) (Z.to_nat serverIndex)
              ltac:(lia)) as [p Hp].
  destruct (lookup_lt_is_Some_2 (serversNames (servers w))
              (Z.to_nat serverIndex) ltac:(lia)) as [name Hname].
  destruct (GetConnection_pops serverIndex w p Hl Hp)
    as (r & tr1 & Hg & Hnp & Htr1).
  set (w1 := mkWorld (set_pool (servers w) (Z.to_nat serverIndex) (pop p))
                     (trace w ++ tr1)) in *.
  assert (Hwf1 : forall tr, wf_servers
                   (servers (mkWorld (servers w1) tr))).
  { intros tr. split; cbn; rewrite length_insert; assumption. }
  assert (Hl1 : (poolLen (servers w1) <? serverIndex) = false) by exact Hl.
  assert (Hp1 : is_Some (pool (servers w1) !! Z.to_nat serverIndex)).
  { cbn. rewrite list_lookup_insert_eq; [eauto|].
    eapply lookup_lt_Some; eassumption. }
  assert (Hname1 : forall tr,
             name_of serverIndex (mkWorld (servers w1) tr)
             = (Ok name, mkWorld (servers w1) tr)).
  { intros tr. unfold name_of, Name. cbn. now rewrite Hname. }
  (* what remains once this server is done, in the world [w2] *)
  assert (Hrest : forall failed2 errs2 tr2,
             List.length failed2 = List.length errs2 ->
             settled (tr1 ++ tr2) ->
             exists failed' errs' w' tr,
               Flush_loop n (serverIndex + 1) extras failed2 errs2
                 (mkWorld (servers w1) (trace w1 ++ tr2))
               = (Ok (failed', errs'), w') /\
               List.length failed' = List.length errs' /\
               poolLen (servers w') = poolLen (servers w) /\
               serversNames (servers w') = serversNames (servers w) /\
               List.length (pool (servers w'))
               = List.length (pool (servers w)) /\
               (forall i : nat,
                  pool (servers w') !! i
                  = if decide (serverIndex <= Z.of_nat i
                               < serverIndex + Z.of_nat (S n))
                    then pop <$> pool (servers w) !! i
                    else pool (servers w) !! i) /\
               trace w' = trace w ++ tr /\ settled tr).
  { intros failed2 errs2 tr2 Hfe2 Hset.
    destruct (IH (serverIndex + 1) extras failed2 errs2
                (mkWorld (servers w1) (trace w1 ++ tr2)))
      as (failed' & errs' & w' & tr & Hrun & Hlen & Hpl' & Hnm' & Hps' & Hlk
          & Htr & Hst); try assumption; try lia.
    { apply Hwf1. }
    { cbn. rewrite length_insert. lia. }
    exists failed', errs', w', (tr1 ++ tr2 ++ tr).
    repeat apply conj; try assumption.
    - cbn in Hps'. now rewrite length_insert in Hps'.
    - intros i. rewrite Hlk. cbn [servers w1 set_pool pool].
      destruct (decide (Z.to_nat serverIndex = i)) as [<- | Hne].
      + rewrite list_lookup_insert_eq by (eapply lookup_lt_Some; eassumption).
        rewrite Hp. repeat destruct (decide _); try lia. reflexivity.
      + rewrite list_lookup_insert_ne by exact Hne.
        repeat destruct (decide _); try lia; reflexivity.
    - rewrite Htr. cbn. now rewrite <- !app_assoc.
    - rewrite app_assoc. now apply settled_app. }
  cbn [Flush_loop]. unfold bind, try. rewrite Hg.
  destruct r as [cn | e |]; [| |now destruct Hnp]; subst tr1.
  - (* a connection *)
    destruct (match sendConnCommand cn "" cmdFlush [] 0 extras with
              | (Some err, cn1) => (Err err, cn1)
              | (None, cn1) => parseResponse "" cn1
              end) as [[resp | err |] cn2] eqn:Hrt.
    + rewrite (switch_err_Ok _ _ _ _ Hl1 Hp1).
      apply (Hrest failed errs [_]); [exact Hfe|].
      cbn. constructor; [|constructor].
      destruct (sendConnCommand cn "" cmdFlush [] 0 extras)
        as [[err|] cn1] eqn:Hs; [discriminate Hrt|].
      apply sendConnCommand_conn_id in Hs.
      apply parseResponse_conn_id in Hrt. congruence.
    + change w1 with (mkWorld (servers w1) (trace w1)). rewrite Hname1.
      rewrite (switch_err_Ok _ _ _ _ Hl1 Hp1).
      apply (Hrest (failed ++ [name]) (errs ++ [err]) [_]).
      { rewrite !length_app. cbn. lia. }
      assert (Hid : conn_id cn2 = conn_id cn).
      { destruct (sendConnCommand cn "" cmdFlush [] 0 extras)
          as [[err'|] cn1] eqn:Hs.
        - injection Hrt as _ <-. now apply sendConnCommand_conn_id in Hs.
        - apply sendConnCommand_conn_id in Hs.
          apply parseResponse_conn_id in Hrt. congruence. }
      cbn [app]. destruct (returns_to_pool (Some err)); constructor;
        try exact Hid; constructor.
    + destruct (sendConnCommand cn "" cmdFlush [] 0 extras)
        as [[err'|] cn1]; [discriminate Hrt|].
      now apply parseResponse_not_Panic in Hrt.
  - (* no connection *)
    change w1 with (mkWorld (servers w1) (trace w1)). rewrite Hname1.
    replace (trace w1) with (trace w1 ++ []) by apply app_nil_r.
    apply (Hrest (failed ++ [name]) (errs ++ [e]) []).
    { rewrite !length_app. cbn. lia. }
    cbn. constructor.
Qed.

Lemma write_failed_Some failed : forall ii errs buf,
  (ii + List.length failed <= List.length errs)%nat ->
  exists msg, write_failed ii failed errs buf = Some msg.
Proof.
  induction failed as [|addr failed IH]; intros ii errs buf Hlen;
    cbn [write_failed]; [eauto|].
  cbn [List.length] in Hlen.
  destruct (lookup_lt_is_Some_2 errs ii ltac:(lia)) as [e ->].
  apply IH. lia.
Qed.

(** X28. [Flush] on the client of a server list: the call comes to its end with
    nil or with one error made at the end of the loop, after every pool was
    asked for one connection, whatever the servers before it did; and every
    connection acquired was put back or closed. *)
Lemma Flush_every_server expiration w :
  wf_servers (servers w) ->
  exists w' tr,
    (Flush expiration w = (Ok tt, w') \/
     exists msg, Flush expiration w = (Err (ErrNew msg), w')) /\
    (forall i : nat,
       pool (servers w') !! i = pop <$> pool (servers w) !! i) /\
    trace w' = trace w ++ tr /\ settled tr.
Proof.
  intros Hwf. unfold Flush, PoolLen, bind.
  set (extras := if 0 <? expiration then _ else _).
  destruct (Flush_loop_every_server
              (Z.to_nat (poolLen (servers w))) 0 extras [] [] w Hwf)
    as (failed & errs & w' & tr & Hrun & Hlen & _ & _ & _ & Hlk & Htr & Hst);
    [lia | destruct Hwf; lia | reflexivity |].
  rewrite Hrun. cbn [fst snd]. exists w', tr.
  split; [|repeat apply conj; try assumption].
  - destruct (0 <? List.length failed)%nat; [|now left].
    destruct (write_failed_Some failed 0 errs
                "failed to flush some servers: " ltac:(lia)) as [msg Hmsg].
    right. exists msg. unfold must. rewrite Hmsg. reflexivity.
  - intros i. rewrite Hlk. destruct (decide _) as [Hin | Hout];
      [reflexivity|].
    destruct Hwf as [Hpl _].
    rewrite (lookup_ge_None_2 (pool (servers w)) i) by lia.
    reflexivity.
Qed.

(** The server list of [NewServerList] is well formed. *)
Lemma NewServerList_wf net configs s :
  NewServerList net configs = Ok s ->
  Z.of_nat (List.length configs) < 2 ^ 32 ->
  wf_servers s.
Proof.
  intros H Hlt. destruct (NewServerList_names net configs s H) as (Hn & Hp & _).
  unfold NewServerList in H.
  destruct (NewServerList_loop _ _ _ _ _ _) as [[[servers n] names] | e |] eqn:Hl;
    try discriminate H.
  injection H as <-. apply NewServerList_loop_Ok in Hl.
  destruct Hl as (_ & -> & _). cbn in *. split; cbn.
  - rewrite Hp. apply uint32_small. lia.
  - rewrite Hn, Hp, length_app, repeat_length. lia.
Qed.

(** A task of [GetMulti] that has sent its requests ends with its connection
    acquired and neither put back nor closed, whatever it reads. *)
Lemma GetMulti_task_keeps_connection serverIndex keys w cn w1 cn1 cn2 :
  GetConnection serverIndex w = (Ok cn, w1) ->
  send_keys cn keys = (None, cn1) ->
  sendConnCommand cn1 "" cmdNoop [] 0 [] = (None, cn2) ->
  exists r,
    GetMulti_task serverIndex keys w = (r, w1) /\
    trace w1 = trace w ++ [EvGet serverIndex cn].
Proof.
  intros Hg Hs Hn. unfold GetMulti_task. rewrite Hg, Hs, Hn.
  apply GetConnection_Ok in Hg. destruct Hg as (_ & _ & _ & Htr).
  destruct (read_items _ cn2) as [[r cn3]|]; eauto.
Qed.

Lemma settled_ids tr : settled tr -> acquired_ids tr = released_ids tr.
Proof.
  induction 1 as [|index cn cn' tr Hid _ IH | index cn cn' tr Hid _ IH];
    cbn; [reflexivity | |]; rewrite Hid; f_equal; exact IH.
Qed.

(** C1. A batch get of one key, which the server has: [GetMulti] returns the
    item with a nil error, and the connection it has acquired is neither
    put back in the pool nor closed; while [Get] for the same key, on the
    same answer, puts its connection back. *)
Theorem GetMulti_leaks_connection :
  exists m w' item w'',
    GetMulti ["a"]
      (one_server (response_frame cmdGetKQ "a" (stobs "1") 7 (be_bytes 4 123)
                   ++ response_header respOk 0))
    = (Ok m, w') /\
    acquired_ids (trace w') = [1%nat] /\
    released_ids (trace w') = [] /\
    ~ settled (trace w') /\
    Get "a"
      (one_server (response_frame cmdGetKQ "a" (stobs "1") 7 (be_bytes 4 123)
                   ++ response_header respOk 0))
    = (Ok item, w'') /\
    acquired_ids (trace w'') = [1%nat] /\
    released_ids (trace w'') = [1%nat].
Proof.
  eexists _, _, _, _.
  split; [vm_compute; reflexivity|].
  split; [vm_compute; reflexivity|].
  split; [vm_compute; reflexivity|].
  split.
  { intros Hs. apply settled_ids in Hs. vm_compute in Hs. discriminate Hs. }
  split; [vm_compute; reflexivity|].
  split; vm_compute; reflexivity.
Qed.

(** * Further properties *)

(** ** The decoder, frame by frame *)

Lemma readAtLeast_Ok_inv cn n bs cn' :
  readAtLeast cn n = (Ok bs, cn') ->
  incoming cn = bs ++ incoming cn' /\ List.length bs = n /\
  cn' = with_incoming cn (incoming cn').
Proof.
  unfold readAtLeast. destruct (n <=? _)%nat eqn:E; intros [= <- <-].
  apply Nat.leb_le in E. cbn. rewrite take_drop, length_take.
  repeat split. lia.
Qed.

Lemma read_field_Ok_inv cn n bs cn' :
  read_field cn n = (Ok bs, cn') ->
  incoming cn = bs ++ incoming cn' /\
  Z.of_nat (List.length bs) = Z.max 0 n /\
  cn' = with_incoming cn (incoming cn').
Proof.
  unfold read_field. destruct (0 <? n) eqn:E.
  - intros H. apply readAtLeast_Ok_inv in H. destruct H as (H1 & H2 & H3).
    repeat split; try assumption. lia.
  - intros [= <- <-]. cbn. repeat split; [lia|]. now destruct cn.
Qed.

Lemma be_read_nonneg n : forall bs acc v,
  be_read n bs acc = Some v -> 0 <= acc -> 0 <= v.
Proof.
  induction n as [|n IH]; intros bs acc v H Hacc; cbn in H.
  - injection H as <-. exact Hacc.
  - destruct bs as [|b bs]; [discriminate H|].
    apply IH in H; [exact H|]. pose proof (Z_of_byte_range b). lia.
Qed.

Lemma with_incoming_twice cn a b :
  with_incoming (with_incoming cn a) b = with_incoming cn b.
Proof. reflexivity. Qed.

(** X1. Whatever [parseResponse] decodes is what the stream began with: the
    24 bytes of a header that starts with 0x81 and has status 0, then as
    many bytes of extras as byte 4 says, as many of key as bytes 2-3 say, and
    the rest of the total body length of bytes 8-11 as the value - no byte
    when that total is less than the extras and the key together, which is
    not reported as an error. Nothing else of the connection changes. *)
Theorem parseResponse_Ok_inv (rKey : string) (cn cn' : Conn)
    (resp : Response)
    (H : parseResponse rKey cn = (Ok resp, cn')) :
  exists magic elb kl total,
    incoming cn
    = r_hdr resp ++ r_extras resp ++ r_key resp ++ r_value resp
      ++ incoming cn' /\
    cn' = with_incoming cn (incoming cn') /\
    List.length (r_hdr resp) = 24%nat /\
    r_hdr resp !! 0%nat = Some magic /\ Z_of_byte magic = respMagic /\
    bUint16 (slice 6 8 (r_hdr resp)) = Some respOk /\
    r_hdr resp !! 4%nat = Some elb /\
    Z.of_nat (List.length (r_extras resp)) = Z_of_byte elb /\
    bUint16 (slice 2 4 (r_hdr resp)) = Some kl /\
    Z.of_nat (List.length (r_key resp)) = kl /\
    bUint32 (slice 8 12 (r_hdr resp)) = Some total /\
    Z.of_nat (List.length (r_value resp))
    = Z.max 0 (total - Z_of_byte elb - kl).
Proof.
  unfold parseResponse in H.
  destruct (readAtLeast cn 24) as [[hdr | e |] cn1] eqn:Hr;
    try discriminate H.
  apply readAtLeast_Ok_inv in Hr. destruct Hr as (Hin1 & Hlen & Hcn1).
  destruct (header_fields hdr Hlen)
    as (magic & status & total & elb & kl & H0 & Hs & Ht & H4 & Hk & Hpos).
  rewrite H0, Hs, Ht, H4, Hk in H.
  destruct (Z_of_byte magic =? respMagic) eqn:Em; [|discriminate H].
  destruct (status =? respOk) eqn:Es; cbn [negb] in H.
  2: { destruct (CopyN_Discard cn1 total) as [[e|] cn2];
       [discriminate H|]. destruct (_ && _); discriminate H. }
  destruct (read_field cn1 (Z_of_byte elb)) as [[extras | e |] cn2] eqn:H1;
    try discriminate H.
  destruct (read_field cn2 kl) as [[key | e |] cn3] eqn:H2;
    try discriminate H.
  destruct (read_field cn3 (total - Z_of_byte elb - kl))
    as [[value | e |] cn4] eqn:H3; try discriminate H.
  injection H as <- <-. cbn [r_hdr r_extras r_key r_value].
  apply read_field_Ok_inv in H1, H2, H3.
  destruct H1 as (I1 & L1 & C1), H2 as (I2 & L2 & C2), H3 as (I3 & L3 & C3).
  pose proof (Z_of_byte_range elb) as Hel.
  assert (Hkl : 0 <= kl).
  { apply (be_read_nonneg _ _ _ _ Hk). lia. }
  exists magic, elb, kl, total. repeat apply conj; try assumption; try lia.
  - rewrite Hin1, I1, I2, I3. reflexivity.
  - rewrite C3, C2, C1, Hcn1. reflexivity.
  - apply Z.eqb_eq in Es. now subst status.
Qed.

Lemma parseResponse_Ok_inv_witness :
  exists resp cn',
    parseResponse ""
      (conn_reading 1
         (response_frame cmdGetKQ "a" (stobs "1") 7 (be_bytes 4 123)
          ++ response_header respOk 0))
    = (Ok resp, cn') /\
    incoming cn' = response_header respOk 0 /\
    r_key resp = stobs "a".
Proof.
  pose proof (parseResponse_Ok_inv ""
                (conn_reading 1
                   (response_frame cmdGetKQ "a" (stobs "1") 7 (be_bytes 4 123)
                    ++ response_header respOk 0))) as T.
  destruct (parseResponse _ _) as [[resp | e |] cn'] eqn:H;
    [|vm_compute in H; discriminate H ..].
  destruct (T cn' resp eq_refl) as (magic & elb & kl & total & Hin & _).
  exists resp, cn'. split; [reflexivity|].
  vm_compute in H. injection H as <- <-. split; reflexivity.
Defined.

(** A frame with the magic byte of a response, status [respOk] and a total
    body length that is the sum of the three lengths decodes to its parts
    and leaves what follows it in the stream. *)
Lemma parseResponse_frame_rest rKey cn hdr extras key value rest magic elb :
  incoming cn = hdr ++ extras ++ key ++ value ++ rest ->
  List.length hdr = 24%nat ->
  hdr !! 0%nat = Some magic -> Z_of_byte magic = respMagic ->
  bUint16 (slice 6 8 hdr) = Some respOk ->
  bUint32 (slice 8 12 hdr)
  = Some (Z.of_nat (List.length extras) + Z.of_nat (List.length key)
          + Z.of_nat (List.length value)) ->
  hdr !! 4%nat = Some elb ->
  Z_of_byte elb = Z.of_nat (List.length extras) ->
  bUint16 (slice 2 4 hdr) = Some (Z.of_nat (List.length key)) ->
  parseResponse rKey cn
  = (Ok (mkResponse hdr key extras value), with_incoming cn rest).
Proof.
  intros Hin Hlen H0 Hm Hs Ht H4 He Hk. unfold parseResponse.
  rewrite (readAtLeast_app cn 24 hdr _ Hin Hlen).
  rewrite H0, Hs, Ht, H4, Hk, Hm, He. rewrite Z.eqb_refl. cbn [negb].
  change (respOk =? respOk) with true. cbn [negb].
  rewrite (read_field_app _ _ extras (key ++ value ++ rest)) by reflexivity.
  rewrite (read_field_app _ _ key (value ++ rest)) by reflexivity.
  rewrite (read_field_app _ _ value rest); [reflexivity | reflexivity | lia].
Qed.

(** The frame of a response, followed by anything, decodes to its parts. *)
Lemma parseResponse_response_frame rKey cn opcode key value cas extras rest :
  Z.of_nat (len key) < 2 ^ 16 ->
  Z.of_nat (List.length extras) < 2 ^ 8 ->
  Z.of_nat (List.length extras) + Z.of_nat (len key)
  + Z.of_nat (List.length value) < 2 ^ 32 ->
  incoming cn = response_frame opcode key value cas extras ++ rest ->
  parseResponse rKey cn
  = (Ok (mkResponse (response_frame_header opcode key value cas extras)
           (stobs key) extras value),
     with_incoming cn rest).
Proof.
  intros Hkl Hel Hbl Hin. change (2 ^ 8) with 256 in Hel.
  apply (parseResponse_frame_rest rKey cn _ extras (stobs key) value rest
           (byte_of_Z respMagic)
           (byte_of_Z (Z.of_nat (List.length extras)))).
  - rewrite Hin. unfold response_frame. rewrite encode_frame.
    cbn. rewrite <- !app_assoc. reflexivity.
  - reflexivity.
  - reflexivity.
  - reflexivity.
  - reflexivity.
  - change (bUint32
              (be_bytes 4
                 ((Z.of_nat (len key) + Z.of_nat (List.length extras)
                   + Z.of_nat (List.length value)) mod 2 ^ 32))
            = Some (Z.of_nat (List.length extras)
                    + Z.of_nat (List.length (stobs key))
                    + Z.of_nat (List.length value))).
    unfold len in *. rewrite Z.mod_small by lia.
    unfold bUint32. rewrite be_read_be_bytes_small by lia. f_equal. lia.
  - reflexivity.
  - rewrite Z_of_byte_of_Z. apply Z.mod_small. lia.
  - change (bUint16 (be_bytes 2 (Z.of_nat (len key) mod 2 ^ 16))
            = Some (Z.of_nat (List.length (stobs key)))).
    unfold len in *. rewrite Z.mod_small by lia.
    apply be_read_be_bytes_small. lia.
Qed.

(** ** Sending a request *)

Lemma conn_Write_succeeds cn buf :
  writes_succeed cn ->
  exists cn',
    conn_Write cn buf = (None, cn') /\
    writes_succeed cn' /\
    conn_id cn' = conn_id cn /\ incoming cn' = incoming cn /\
    written cn' = written cn ++ buf.
Proof.
  unfold writes_succeed, conn_Write. intros H.
  destruct (wscript cn) as [|[msg|] rest] eqn:E.
  - eexists. split; [reflexivity|]. cbn. repeat split. constructor.
  - inversion H; subst. discriminate.
  - inversion H; subst. eexists. split; [reflexivity|]. cbn.
    repeat split. assumption.
Qed.

Lemma sendConnCommand_succeeds cn key cmd value cas extras :
  writes_succeed cn ->
  exists cn',
    sendConnCommand cn key cmd value cas extras = (None, cn') /\
    writes_succeed cn' /\
    conn_id cn' = conn_id cn /\ incoming cn' = incoming cn /\
    written cn' = written cn ++ encode key cmd value cas extras.
Proof.
  intros Hw. unfold sendConnCommand.
  set (buf := if (0 <? len key)%nat then _ else _).
  destruct (conn_Write_succeeds cn buf Hw)
    as (cn1 & H1 & Hw1 & Hid1 & Hin1 & Hwr1).
  assert (Hs : sendConnCommand cn key cmd value cas extras
               = match conn_Write cn buf with
                 | (Some err, cn1) => (Some err, cn1)
                 | (None, cn1) =>
                     if (0 <? List.length value)%nat then
                       match conn_Write cn1 value with
                       | (Some err, cn2) => (Some err, cn2)
                       | (None, cn2) => (None, cn2)
                       end
                     else (None, cn1)
                 end) by reflexivity.
  rewrite H1 in Hs |- *.
  destruct (0 <? List.length value)%nat eqn:Ev.
  - destruct (conn_Write_succeeds cn1 value Hw1)
      as (cn2 & H2 & Hw2 & Hid2 & Hin2 & Hwr2).
    rewrite H2 in Hs |- *. exists cn2. split; [reflexivity|].
    repeat split; try congruence.
    now apply sendConnCommand_writes_frame in Hs.
  - exists cn1. split; [reflexivity|]. repeat split; try congruence.
    now apply sendConnCommand_writes_frame in Hs.
Qed.

(** The outcomes of [sendConnCommand], write by write. *)
Lemma sendConnCommand_cases (cn cn' : Conn) (key : string) (cmd : Z)
    (value : list byte) (cas : Z) (extras : list byte) (r : option error)
    (H : sendConnCommand cn key cmd value cas extras = (r, cn')) :
  conn_id cn' = conn_id cn /\
  incoming cn' = incoming cn /\
  match r with
  | None => written cn' = written cn ++ encode key cmd value cas extras
  | Some e =>
      (exists msg, e = ErrIO msg) /\
      (written cn' = written cn \/
       value <> [] /\
       written cn'
       = written cn ++ request_header key cmd value cas extras ++ extras
         ++ stobs key)
  end.
Proof.
  split; [eapply sendConnCommand_conn_id; eassumption|].
  revert H. unfold sendConnCommand, conn_Write, len.
  assert (Hx : (if (0 <? List.length extras)%nat
                then request_header key cmd value cas extras ++ extras
                else request_header key cmd value cas extras)
               = request_header key cmd value cas extras ++ extras)
    by (destruct extras; cbn; now rewrite ?app_nil_r).
  rewrite Hx; clear Hx.
  assert (Hk : forall buf : list byte,
             (if (0 <? List.length (stobs key))%nat
              then buf ++ stobs key else buf) = buf ++ stobs key)
    by (intros buf; destruct (stobs key); cbn; now rewrite ?app_nil_r).
  rewrite Hk; clear Hk. rewrite encode_frame.
  destruct cn as [id inc wr ws]; cbn [wscript written incoming conn_id].
  assert (Hfin : forall (r0 : option error) (c0 : Conn),
             incoming c0 = inc ->
             match r0 with
             | Some e =>
                 (exists msg, e = ErrIO msg) /\
                 (written c0 = wr \/
                  value <> [] /\
                  written c0
                  = wr ++ request_header key cmd value cas extras ++ extras
                    ++ stobs key)
             | None =>
                 written c0
                 = wr ++ request_header key cmd value cas extras ++ extras
                   ++ stobs key ++ value
             end ->
             (r0, c0) = (r, cn') ->
             incoming cn' = inc /\
             match r with
             | Some e =>
                 (exists msg, e = ErrIO msg) /\
                 (written cn' = wr \/
                  value <> [] /\
                  written cn'
                  = wr ++ request_header key cmd value cas extras ++ extras
                    ++ stobs key)
             | None =>
                 written cn'
                 = wr ++ request_header key cmd value cas extras ++ extras
                   ++ stobs key ++ value
             end).
  { intros r0 c0 H1 H2 [= <- <-]. now split. }
  destruct ws as [|[msg|] ws].
  - destruct value as [|v value]; cbn -[request_header]; apply Hfin;
      cbn -[request_header]; rewrite ?app_nil_r, <- ?app_assoc; reflexivity.
  - apply Hfin; cbn -[request_header]; eauto.
  - destruct value as [|v value]; cbn -[request_header].
    + apply Hfin; cbn -[request_header];
        rewrite ?app_nil_r, <- ?app_assoc; reflexivity.
    + destruct ws as [|[msg|] ws]; apply Hfin; cbn -[request_header];
        rewrite <- ?app_assoc; try reflexivity.
      split; [eauto|]. right. split; [discriminate | reflexivity].
Qed.



(** ** Responses that are errors *)

Lemma parseResponse_status rKey cn hdr rest magic status total :
  incoming cn = hdr ++ rest -> List.length hdr = 24%nat ->
  hdr !! 0%nat = Some magic -> Z_of_byte magic = respMagic ->
  bUint16 (slice 6 8 hdr) = Some status -> status <> respOk ->
  bUint32 (slice 8 12 hdr) = Some total ->
  total <= Z.of_nat (List.length rest) ->
  parseResponse rKey cn
  = (Err (status_error rKey status),
     with_incoming cn (skipn (Z.to_nat total) rest)).
Proof.
  intros Hin Hhdr H0 Hm Hs Hst Ht Htot.
  destruct (header_fields hdr Hhdr)
    as (magic' & status' & total' & elb & kl & H0' & Hs' & Ht' & H4 & Hk & Hp).
  unfold parseResponse, status_error.
  rewrite (readAtLeast_app cn 24 hdr rest Hin Hhdr).
  rewrite H0', Hs', Ht', H4, Hk.
  rewrite H0 in H0'. injection H0' as <-.
  rewrite Hs in Hs'. injection Hs' as <-.
  rewrite Ht in Ht'. injection Ht' as <-.
  rewrite Hm, Z.eqb_refl. cbn [negb].
  destruct (status =? respOk) eqn:E1; [lia|]. cbn [negb].
  rewrite CopyN_Discard_enough by (cbn; lia). cbn.
  destruct ((status =? respInvalidArgs) && negb (legalKey rKey));
    reflexivity.
Qed.

(** X3. The statuses for which a connection is kept. When the server has
    answered with a status that is not [respOk], and the body it announces
    is in the stream, the error [parseResponse] returns is one for which the
    connection goes back to the pool exactly when the status is 1 (key not
    found), 2 (key exists), 5 (item not stored) or 6 (incr/decr on a
    non-numeric value); for any other status - value too large, invalid
    arguments, unknown command, out of memory... - the operation closes the
    connection although the stream is in step. *)
Theorem status_keeps_connection (rKey : string) (cn : Conn)
    (hdr rest : list byte) (magic : byte) (status total : Z)
    (Hin : incoming cn = hdr ++ rest)
    (Hhdr : List.length hdr = 24%nat)
    (H0 : hdr !! 0%nat = Some magic)
    (Hm : Z_of_byte magic = respMagic)
    (Hs : bUint16 (slice 6 8 hdr) = Some status)
    (Hst : status <> respOk)
    (Ht : bUint32 (slice 8 12 hdr) = Some total)
    (Htot : total <= Z.of_nat (List.length rest)) :
  exists e cn',
    parseResponse rKey cn = (Err e, cn') /\
    incoming cn' = skipn (Z.to_nat total) rest /\
    (returns_to_pool (Some e) = true <->
     status = 1 \/ status = 2 \/ status = 5 \/ status = 6).
Proof.
  eexists _, _. split.
  { eapply parseResponse_status; eassumption. }
  split; [reflexivity|].
  unfold status_error, asError, respInvalidArgs, respKeyNotFound,
    respKeyExists, respInvalidIncrDecr, respItemNotStored.
  destruct (status =? 4) eqn:E4; cbn [andb].
  - apply Z.eqb_eq in E4. subst status.
    destruct (legalKey rKey); cbn; split; try discriminate; lia.
  - destruct (status =? 1) eqn:E1; [cbn; split; [lia | reflexivity]|].
    destruct (status =? 2) eqn:E2; [cbn; split; [lia | reflexivity]|].
    destruct (status =? 6) eqn:E6; [cbn; split; [lia | reflexivity]|].
    destruct (status =? 5) eqn:E5; [cbn; split; [lia | reflexivity]|].
    cbn. split; [discriminate | lia].
Qed.

Lemma status_keeps_connection_witness :
  exists e cn',
    parseResponse "k"
      (conn_reading 1 (response_header 3 2 ++ stobs "xyz"))
    = (Err e, cn') /\
    incoming cn' = stobs "z" /\
    (returns_to_pool (Some e) = true <->
     3 = 1 \/ 3 = 2 \/ 3 = 5 \/ 3 = 6).
Proof.
  apply (status_keeps_connection "k"
           (conn_reading 1 (response_header 3 2 ++ stobs "xyz"))
           (response_header 3 2) (stobs "xyz") (byte_of_Z respMagic) 3 2);
    try reflexivity; [discriminate | cbn; lia].
Defined.

(** X4. [ErrMalformedKey] is the answer to a key the validator rejects, and
    only after the server has answered: decoding for a key the validator
    accepts never returns it. *)
Theorem MalformedKey_only_illegal (rKey : string) (cn cn' : Conn)
    (H : parseResponse rKey cn = (Err ErrMalformedKey, cn')) :
  legalKey rKey = false /\
  (24 <= List.length (incoming cn))%nat.
Proof.
  unfold parseResponse in H.
  destruct (readAtLeast cn 24) as [[hdr | e |] cn1] eqn:Hr.
  - pose proof (readAtLeast_length _ _ _ _ Hr) as [_ Hl].
    specialize (Hl hdr eq_refl). split; [|lia].
    run_cases H; apply (f_equal fst) in H; cbn [fst] in H;
      try (repeat match goal with
           | Hf : read_field _ _ = (Err _, _) |- _ =>
               apply read_field_Err in Hf; subst
           | Hf : CopyN_Discard _ _ = (Some _, _) |- _ =>
               apply CopyN_Discard_Err in Hf; subst
           end; discriminate H).
    + match goal with
      | Hb : _ && negb (legalKey rKey) = true |- _ =>
          apply andb_true_iff in Hb; destruct Hb as [_ Hb];
          now apply negb_true_iff in Hb
      end.
    + exfalso. injection H as H. unfold asError in H.
      repeat match type of H with
             | context [if ?b then _ else _] => destruct b
             end; discriminate H.
  - apply (f_equal fst) in H. cbn [fst] in H.
    apply readAtLeast_Err in Hr. subst. discriminate H.
  - discriminate H.
Qed.

Lemma MalformedKey_only_illegal_witness :
  legalKey "bad key" = false /\
  (24 <= List.length
           (incoming (conn_reading 1 (response_header respInvalidArgs 0))))%nat.
Proof.
  refine (MalformedKey_only_illegal "bad key"
            (conn_reading 1 (response_header respInvalidArgs 0)) _ _).
  vm_compute. reflexivity.
Defined.

(** X5. A stream that ends before the 24 bytes of a header, or inside the
    body that the header of an error response announces, gives the error of
    the transport and is read to its end; no status is reported. *)
Theorem parseResponse_truncated (rKey : string) (cn : Conn)
    (H : (List.length (incoming cn) < 24)%nat \/
         exists hdr rest magic status total,
           incoming cn = hdr ++ rest /\ List.length hdr = 24%nat /\
           hdr !! 0%nat = Some magic /\ Z_of_byte magic = respMagic /\
           bUint16 (slice 6 8 hdr) = Some status /\ status <> respOk /\
           bUint32 (slice 8 12 hdr) = Some total /\
           Z.of_nat (List.length rest) < total) :
  parseResponse rKey cn = (Err io_EOF, with_incoming cn []).
Proof.
  destruct H as [Hshort
                | (hdr & rest & magic & status & total & Hin & Hhdr & H0 & Hm
                   & Hs & Hst & Ht & Hlt)].
  - unfold parseResponse, readAtLeast.
    destruct (24 <=? List.length (incoming cn))%nat eqn:E;
      [apply Nat.leb_le in E; lia | reflexivity].
  - destruct (header_fields hdr Hhdr)
      as (magic' & status' & total' & elb & kl & H0' & Hs' & Ht' & H4 & Hk
          & Hp).
    unfold parseResponse.
    rewrite (readAtLeast_app cn 24 hdr rest Hin Hhdr).
    rewrite H0', Hs', Ht', H4, Hk.
    rewrite H0 in H0'. injection H0' as <-.
    rewrite Hs in Hs'. injection Hs' as <-.
    rewrite Ht in Ht'. injection Ht' as <-.
    rewrite Hm, Z.eqb_refl. cbn [negb].
    destruct (status =? respOk) eqn:E1; [lia|]. cbn [negb].
    unfold CopyN_Discard. cbn [incoming with_incoming].
    destruct (total <=? Z.of_nat (List.length rest)) eqn:E2; [lia|].
    reflexivity.
Qed.

Lemma parseResponse_truncated_witness :
  parseResponse "k" (conn_reading 1 (response_header respKeyNotFound 5
                                     ++ stobs "xyz"))
  = (Err io_EOF, conn_reading 1 []).
Proof.
  apply (parseResponse_truncated "k"
           (conn_reading 1 (response_header respKeyNotFound 5
                            ++ stobs "xyz"))).
  right.
  exists (response_header respKeyNotFound 5), (stobs "xyz"),
    (byte_of_Z respMagic), respKeyNotFound, 5.
  repeat apply conj; try reflexivity; discriminate.
Defined.

(** ** The server list *)

(** [serversLen] counts the configurations gone through; the pools are
    stored from [i] on, over what [servers] held there. *)
Lemma NewServerList_loop_pools net configs :
  forall i servers n names,
    (i + List.length configs <= List.length servers)%nat ->
    match NewServerList_loop net configs i servers n names with
    | Ok (servers', n', names') =>
        exists pools,
          Forall2 (fun c p => made net c = Ok p) configs pools /\
          servers'
          = firstn i servers ++ pools
            ++ skipn (i + List.length configs) servers /\
          n' = n + Z.of_nat (List.length configs) /\
          names' = names ++ map Server configs
    | Err e =>
        exists pre c post,
          configs = pre ++ c :: post /\
          Forall (fun c' => exists p, made net c' = Ok p) pre /\
          made net c = Err e
    | Panic =>
        exists pre c post,
          configs = pre ++ c :: post /\
          Forall (fun c' => exists p, made net c' = Ok p) pre /\
          made net c = Panic
    end.
Proof.
  induction configs as [|config configs IH]; intros i servers n names Hlen;
    cbn [NewServerList_loop].
  - exists []. repeat apply conj; [constructor | | cbn; lia
                                   | now rewrite app_nil_r].
    cbn. rewrite Nat.add_0_r. now rewrite take_drop.
  - assert (Hmade : made net config
                    = match (if contains_slash (Server config)
                             then ResolveUnixAddr net
                             else ResolveTCPAddr net) (Server config) with
                      | Ok addr => newPool net addr config
                      | Err err => Err err
                      | Panic => Panic
                      end) by reflexivity.
    destruct ((if contains_slash (Server config) then ResolveUnixAddr net
               else ResolveTCPAddr net) (Server config)) as [addr | e |].
    2: { exists [], config, configs. repeat split; [constructor | exact Hmade]. }
    2: { exists [], config, configs. repeat split; [constructor | exact Hmade]. }
    destruct (newPool net addr config) as [p | e |].
    2: { exists [], config, configs. repeat split; [constructor | exact Hmade]. }
    2: { exists [], config, configs. repeat split; [constructor | exact Hmade]. }
    cbn [List.length] in Hlen.
    specialize (IH (S i) (<[i := p]> servers) (n + 1)
                  (names ++ [Server config])
                  ltac:(rewrite length_insert; lia)).
    destruct (NewServerList_loop net configs (S i) (<[i := p]> servers)
                (n + 1) (names ++ [Server config]))
      as [[[servers' n'] names'] | e |].
    + destruct IH as (pools & HF & -> & -> & ->).
      exists (p :: pools). repeat apply conj.
      * constructor; assumption.
      * rewrite drop_insert_lt by lia.
        rewrite (take_S_r _ _ p)
          by (apply list_lookup_insert_eq; lia).
        rewrite take_insert_ge by lia.
        cbn [List.length].
        replace (i + S (List.length configs))%nat
          with (S i + List.length configs)%nat by lia.
        now rewrite <- app_assoc.
      * cbn [List.length]. lia.
      * cbn [map]. now rewrite <- app_assoc.
    + destruct IH as (pre & c & post & -> & HF & Hc).
      exists (config :: pre), c, post. repeat split; [|exact Hc].
      constructor; [eauto | exact HF].
    + destruct IH as (pre & c & post & -> & HF & Hc).
      exists (config :: pre), c, post. repeat split; [|exact Hc].
      constructor; [eauto | exact HF].
Qed.

Lemma Forall2_made_unique net configs :
  forall pools pools',
    Forall2 (fun c p => made net c = Ok p) configs pools ->
    Forall2 (fun c p => made net c = Ok p) configs pools' ->
    pools = pools'.
Proof.
  induction configs as [|c configs IH]; intros pools pools' H H';
    inversion H; inversion H'; subst; [reflexivity|].
  f_equal; [congruence | now apply IH].
Qed.

Lemma first_failure_unique net : forall pre c post pre' c' post',
  pre ++ c :: post = pre' ++ c' :: post' ->
  Forall (fun x => exists p, made net x = Ok p) pre ->
  (forall p, made net c <> Ok p) ->
  Forall (fun x => exists p, made net x = Ok p) pre' ->
  (forall p, made net c' <> Ok p) ->
  pre = pre' /\ c = c'.
Proof.
  induction pre as [|x pre IH]; intros c post pre' c' post' Heq Hpre Hc Hpre' Hc'.
  - destruct pre' as [|x' pre']; cbn in Heq.
    + injection Heq as -> _. now split.
    + injection Heq as -> _. inversion Hpre' as [|? ? [p Hp] _]; subst.
      now destruct (Hc p).
  - destruct pre' as [|x' pre']; cbn in Heq.
    + injection Heq as -> _. inversion Hpre as [|? ? [p Hp] _]; subst.
      now destruct (Hc' p).
    + injection Heq as -> Heq. inversion Hpre; inversion Hpre'; subst.
      destruct (IH _ _ _ _ _ Heq) as [-> ->]; auto.
Qed.

Lemma Forall2_made_all net configs pools :
  Forall2 (fun c p => made net c = Ok p) configs pools ->
  forall pre c post, configs = pre ++ c :: post -> exists p, made net c = Ok p.
Proof.
  intros H pre c post ->. apply Forall2_app_inv_l in H.
  destruct H as (l1 & l2 & _ & H & _). inversion H; subst. eauto.
Qed.

(** X6. [NewServerList] succeeds exactly when every address resolves and
    every pool is made; the list then holds the pools in the order of the
    configurations, their number, and a slice of names twice as long: as
    many empty strings as there are servers, then the addresses. *)
Theorem NewServerList_builds (net : Net) (configs : list Config)
    (s : ServerList) :
  NewServerList net configs = Ok s <->
  exists pools,
    Forall2 (fun c p => made net c = Ok p) configs pools /\
    s = mkServerList pools (uint32 (Z.of_nat (List.length configs)))
          (repeat EmptyString (List.length configs) ++ map Server configs).
Proof.
  unfold NewServerList.
  pose proof (NewServerList_loop_pools net configs 0
                (repeat nilPool (List.length configs)) 0
                (repeat EmptyString (List.length configs))
                ltac:(rewrite repeat_length; lia)) as HL.
  destruct (NewServerList_loop _ _ _ _ _ _) as [[[servers n] names] | e |].
  - destruct HL as (pools & HF & -> & -> & ->).
    assert (Hs : firstn 0 (repeat nilPool (List.length configs)) ++ pools
                 ++ skipn (0 + List.length configs)
                      (repeat nilPool (List.length configs)) = pools).
    { cbn. rewrite skipn_all2 by (rewrite repeat_length; lia).
      apply app_nil_r. }
    rewrite Hs. cbn [Z.add]. split.
    + intros [= <-]. exists pools. split; [exact HF | reflexivity].
    + intros (pools' & HF' & ->).
      now rewrite (Forall2_made_unique _ _ _ _ HF HF').
  - split; [discriminate|]. intros (pools & HF & _).
    destruct HL as (pre & c & post & Hc & _ & Hm).
    destruct (Forall2_made_all _ _ _ HF _ _ _ Hc) as [p Hp]. congruence.
  - split; [discriminate|]. intros (pools & HF & _).
    destruct HL as (pre & c & post & Hc & _ & Hm).
    destruct (Forall2_made_all _ _ _ HF _ _ _ Hc) as [p Hp]. congruence.
Qed.

(** X7. [NewServerList] fails with the error of the first configuration, in
    order, whose address does not resolve or whose pool cannot be made;
    the configurations after it are not looked at. *)
Theorem NewServerList_first_error (net : Net) (configs : list Config)
    (e : error) :
  NewServerList net configs = Err e <->
  exists pre c post,
    configs = pre ++ c :: post /\
    Forall (fun c' => exists p, made net c' = Ok p) pre /\
    made net c = Err e.
Proof.
  unfold NewServerList.
  pose proof (NewServerList_loop_pools net configs 0
                (repeat nilPool (List.length configs)) 0
                (repeat EmptyString (List.length configs))
                ltac:(rewrite repeat_length; lia)) as HL.
  destruct (NewServerList_loop _ _ _ _ _ _) as [[[servers n] names] | e0 |].
  - split; [discriminate|]. intros (pre & c & post & Hc & _ & Hm).
    destruct HL as (pools & HF & _).
    destruct (Forall2_made_all _ _ _ HF _ _ _ Hc) as [p Hp]. congruence.
  - destruct HL as (pre & c & post & Hc & Hpre & Hm). split.
    + intros [= <-]. eauto 6.
    + intros (pre' & c' & post' & Hc' & Hpre' & Hm').
      rewrite Hc in Hc'.
      destruct (first_failure_unique net _ _ _ _ _ _ Hc' Hpre
                  ltac:(congruence) Hpre' ltac:(congruence)) as [_ <-].
      congruence.
  - split; [discriminate|]. intros (pre' & c' & post' & Hc' & Hpre' & Hm').
    destruct HL as (pre & c & post & Hc & Hpre & Hm).
    rewrite Hc in Hc'.
    destruct (first_failure_unique net _ _ _ _ _ _ Hc' Hpre
                ltac:(congruence) Hpre' ltac:(congruence)) as [_ <-].
    congruence.
Qed.

(** X8. The guard of [GetConnection], [PutConnection] and
    [CloseConnection] is [poolLen < index]: on a server list as
    [NewServerList] builds them, an index above the number of servers gives
    the error "server not found" and changes nothing, the index of a server
    is served without a panic, and the index equal to the number of servers
    passes the guard and is out of range of the slice of pools. *)
Theorem index_guard (w : World) (index : Z) (cn : Conn)
    (Hwf : wf_servers (servers w))
    (H0 : 0 <= index) :
  (poolLen (servers w) < index ->
   GetConnection index w = (Err (ErrNew "server not found"), w) /\
   PutConnection index cn w = (Err (ErrNew "server not found"), w) /\
   CloseConnection index cn w = (Err (ErrNew "server not found"), w)) /\
  (index = poolLen (servers w) ->
   GetConnection index w = (Panic, w) /\
   PutConnection index cn w = (Panic, w) /\
   CloseConnection index cn w = (Panic, w)) /\
  (index < poolLen (servers w) ->
   (forall w', GetConnection index w <> (Panic, w')) /\
   PutConnection index cn w
   = (Ok tt, mkWorld (servers w) (trace w ++ [EvPut index cn])) /\
   CloseConnection index cn w
   = (Ok tt, mkWorld (servers w) (trace w ++ [EvClose index cn]))).
Proof.
  destruct Hwf as [Hpl Hnames].
  unfold GetConnection, PutConnection, CloseConnection.
  repeat apply conj.
  - intros Hgt. destruct (poolLen (servers w) <? index) eqn:E; [|lia].
    now repeat split.
  - intros ->. rewrite Z.ltb_irrefl.
    rewrite (lookup_ge_None_2 (pool (servers w))) by lia. now repeat split.
  - intros Hlt. destruct (poolLen (servers w) <? index) eqn:E; [lia|].
    destruct (lookup_lt_is_Some_2 (pool (servers w)) (Z.to_nat index)
                ltac:(lia)) as [p ->].
    repeat split. intros w'. destruct (gets p) as [|[c | e] rest];
      discriminate.
Qed.

Lemma index_guard_witness :
  GetConnection 3 second_down = (Panic, second_down) /\
  GetConnection 4 second_down
  = (Err (ErrNew "server not found"), second_down).
Proof.
  destruct (index_guard second_down 3 (conn_reading 9 [])
              ltac:(vm_compute; split; [reflexivity | lia]) ltac:(lia))
    as (_ & H3 & _).
  destruct (index_guard second_down 4 (conn_reading 9 [])
              ltac:(vm_compute; split; [reflexivity | lia]) ltac:(lia))
    as (H4 & _ & _).
  split; [apply H3; reflexivity | apply H4; vm_compute; reflexivity].
Defined.

(** ** Single-key operations, end to end *)

Lemma GetConnection_serves w key index cn :
  serves w key index cn ->
  exists w1,
    GetConnection index w = (Ok cn, w1) /\
    (poolLen (servers w1) <? index) = false /\
    is_Some (pool (servers w1) !! Z.to_nat index) /\
    trace w1 = trace w ++ [EvGet index cn].
Proof.
  intros (_ & Hl & rest & Hp).
  destruct (GetConnection index w) as [r w1] eqn:Hg.
  assert (Hr : r = Ok cn).
  { revert Hg. unfold GetConnection. rewrite Hl, Hp. cbn.
    now intros [= <- _]. }
  subst r. exists w1. split; [reflexivity|].
  apply GetConnection_Ok in Hg. tauto.
Qed.

Lemma response_frame_header_cas opcode key value cas extras :
  0 <= cas < 2 ^ 64 ->
  bUint64 (slice 16 24 (response_frame_header opcode key value cas extras))
  = Some cas.
Proof.
  intros H.
  change (bUint64 (be_bytes 8 cas) = Some cas).
  now apply be_read_be_bytes_small.
Qed.

(** X9. [Get], when the server of the key hands out a connection, the
    request is written and the server answers with the frame of an item:
    the item returned has the value, the flags (the four bytes of extras)
    and the cas value of the response, under the key asked for - or the key
    of the response when the key asked for is empty; the request written is
    the frame of [cmdGet] for the key, with no extras and no value; and the
    connection goes back to the pool with the rest of the stream unread. *)
Theorem Get_hit (w : World) (key rk : string) (index : Z) (cn : Conn)
    (opcode flags cas : Z) (value rest : list byte)
    (Hserves : serves w key index cn)
    (Hw : writes_succeed cn)
    (Hin : incoming cn
           = response_frame opcode rk value cas (be_bytes 4 flags) ++ rest)
    (Hrk : Z.of_nat (len rk) < 2 ^ 16)
    (Hflags : 0 <= flags < 2 ^ 32)
    (Hcas : 0 <= cas < 2 ^ 64)
    (Hbl : 4 + Z.of_nat (len rk) + Z.of_nat (List.length value) < 2 ^ 32) :
  exists w' cn',
    Get key w
    = (Ok (mkItem (if String.eqb key "" && (0 <? len rk)%nat
                   then rk else key) value flags 0 cas), w') /\
    trace w' = trace w ++ [EvGet index cn; EvPut index cn'] /\
    moved_on cn cn' (encode key cmdGet [] 0 []) rest.
Proof.
  destruct (GetConnection_serves w key index cn Hserves)
    as (w1 & Hg & Hl & Hp & Htr).
  destruct Hserves as (Hpick & _).
  destruct (sendConnCommand_succeeds cn key cmdGet [] 0 [] Hw)
    as (cn1 & Hs & Hw1 & Hid1 & Hin1 & Hwr1).
  assert (Hparse := parseResponse_response_frame key cn1 opcode rk value cas
                      (be_bytes 4 flags) rest Hrk ltac:(cbn; lia)
                      ltac:(cbn [List.length be_bytes]; lia)
                      ltac:(congruence)).
  eexists _, (with_incoming cn1 rest).
  unfold Get, bind, pick. rewrite Hpick, Hg, Hs, Hparse.
  rewrite (switch_err_Ok _ _ _ _ Hl Hp).
  unfold item_of_response, must. cbn [r_extras r_hdr r_key r_value].
  rewrite (response_frame_header_cas _ _ _ _ _ Hcas).
  change (0 <? List.length (be_bytes 4 flags))%nat with true. cbn [andb].
  unfold bUint32. rewrite (be_read_be_bytes_small 4 flags) by exact Hflags.
  unfold bstos, stobs. rewrite string_of_list_byte_of_string.
  split; [reflexivity|]. split.
  - cbn [trace]. rewrite Htr, <- app_assoc. reflexivity.
  - unfold moved_on. cbn. auto.
Qed.

Lemma Get_hit_witness :
  exists w' cn',
    Get "a"
      (one_server (response_frame cmdGet "" (stobs "1") 7 (be_bytes 4 123)
                   ++ []))
    = (Ok (mkItem "a" (stobs "1") 123 0 7), w') /\
    trace w'
    = trace (one_server (response_frame cmdGet "" (stobs "1") 7
                           (be_bytes 4 123) ++ []))
      ++ [EvGet 0 (conn_reading 1
                     (response_frame cmdGet "" (stobs "1") 7 (be_bytes 4 123)
                      ++ []));
          EvPut 0 cn'] /\
    moved_on
      (conn_reading 1
         (response_frame cmdGet "" (stobs "1") 7 (be_bytes 4 123) ++ []))
      cn' (encode "a" cmdGet [] 0 []) [].
Proof.
  apply (Get_hit _ "a" "" 0 _ cmdGet 123 7 (stobs "1") []).
  - repeat split; try (vm_compute; reflexivity).
    eexists. vm_compute. reflexivity.
  - constructor.
  - reflexivity.
  - vm_compute. reflexivity.
  - split; [discriminate | reflexivity].
  - split; [discriminate | reflexivity].
  - vm_compute. reflexivity.
Defined.

(** X10. [Delete], when the server of the key hands out a connection and
    the request is written: on the frame of a response with status
    [respOk] and no body it returns nil and puts the connection back; on a
    status that is not [respOk], whose body is in the stream, it returns the
    error of the status, after the body is skipped, and puts the connection
    back or closes it by that error. The request written is the frame of
    [cmdDelete] for the key. *)
Theorem Delete_outcome (w : World) (key : string) (index : Z) (cn : Conn)
    (Hserves : serves w key index cn)
    (Hw : writes_succeed cn) :
  (forall opcode cas rest,
     incoming cn = response_frame opcode "" [] cas [] ++ rest ->
     exists w' cn',
       Delete key w = (Ok tt, w') /\
       trace w' = trace w ++ [EvGet index cn; EvPut index cn'] /\
       moved_on cn cn' (encode key cmdDelete [] 0 []) rest) /\
  (forall hdr rest magic status total,
     incoming cn = hdr ++ rest -> List.length hdr = 24%nat ->
     hdr !! 0%nat = Some magic -> Z_of_byte magic = respMagic ->
     bUint16 (slice 6 8 hdr) = Some status -> status <> respOk ->
     bUint32 (slice 8 12 hdr) = Some total ->
     total <= Z.of_nat (List.length rest) ->
     exists w' cn',
       Delete key w = (Err (status_error key status), w') /\
       trace w'
       = trace w
         ++ [EvGet index cn;
             if returns_to_pool (Some (status_error key status))
             then EvPut index cn' else EvClose index cn'] /\
       moved_on cn cn' (encode key cmdDelete [] 0 [])
         (skipn (Z.to_nat total) rest)).
Proof.
  destruct (GetConnection_serves w key index cn Hserves)
    as (w1 & Hg & Hl & Hp & Htr).
  destruct Hserves as (Hpick & _).
  destruct (sendConnCommand_succeeds cn key cmdDelete [] 0 [] Hw)
    as (cn1 & Hs & Hw1 & Hid1 & Hin1 & Hwr1).
  split.
  - intros opcode cas rest Hin.
    assert (Hparse := parseResponse_response_frame key cn1 opcode "" [] cas
                        [] rest ltac:(cbn; lia) ltac:(cbn; lia)
                        ltac:(cbn; lia) ltac:(congruence)).
    eexists _, (with_incoming cn1 rest).
    unfold Delete, bind, pick. rewrite Hpick, Hg, Hs, Hparse.
    rewrite (switch_err_Ok _ _ _ _ Hl Hp).
    split; [reflexivity|]. split.
    + cbn [trace]. rewrite Htr, <- app_assoc. reflexivity.
    + unfold moved_on. cbn. auto.
  - intros hdr rest magic status total Hin Hhdr H0 Hm Hst Hne Ht Htot.
    assert (Hparse := parseResponse_status key cn1 hdr rest magic status
                        total ltac:(congruence) Hhdr H0 Hm Hst Hne Ht Htot).
    eexists _, (with_incoming cn1 (skipn (Z.to_nat total) rest)).
    unfold Delete, bind, pick. rewrite Hpick, Hg, Hs, Hparse.
    rewrite (switch_err_Ok _ _ _ _ Hl Hp).
    split; [reflexivity|]. split.
    + cbn [trace]. rewrite Htr, <- app_assoc. reflexivity.
    + unfold moved_on. cbn. auto.
Qed.

Lemma Delete_outcome_witness :
  exists w' cn',
    Delete "a" (one_server (response_header respKeyNotFound 0 ++ []))
    = (Err ErrCacheMiss, w') /\
    trace w'
    = [EvGet 0 (conn_reading 1 (response_header respKeyNotFound 0 ++ []));
       EvPut 0 cn'].
Proof.
  destruct (Delete_outcome
              (one_server (response_header respKeyNotFound 0 ++ [])) "a" 0
              (conn_reading 1 (response_header respKeyNotFound 0 ++ [])))
    as [_ H].
  - repeat split; try (vm_compute; reflexivity).
    eexists. vm_compute. reflexivity.
  - constructor.
  - destruct (H (response_header respKeyNotFound 0) [] (byte_of_Z respMagic)
                respKeyNotFound 0)
      as (w' & cn' & HD & Htr & _); try reflexivity; try discriminate.
    exists w', cn'. split; [exact HD | exact Htr].
Defined.

(** X11. [Set], [Add] and [CompareAndSwap], when the server of the key
    hands out a connection, the request is written and the server answers
    with status [respOk]: the call returns nil, the item has the cas value
    of the response, and the request written is one frame, of [cmdSet]
    ([cmdAdd] for [Add]) for the key and the value of the item, with the cas
    value 0 ([CompareAndSwap]: the cas value of the item) and eight bytes
    of extras, the flags and then the expiration, big-endian; the
    connection goes back to the pool. *)
Theorem store_success (call : Item -> M (Item * option error)) (cmd cas : Z)
    (w : World) (item : Item) (index : Z) (cn : Conn)
    (opcode cas' : Z) (rk : string) (rv rex rest : list byte)
    (Hcall : call = Set_ /\ cmd = cmdSet /\ cas = 0 \/
             call = Add /\ cmd = cmdAdd /\ cas = 0 \/
             call = CompareAndSwap /\ cmd = cmdSet /\ cas = casid item)
    (Hserves : serves w (Key item) index cn)
    (Hw : writes_succeed cn)
    (Hin : incoming cn = response_frame opcode rk rv cas' rex ++ rest)
    (Hrk : Z.of_nat (len rk) < 2 ^ 16)
    (Hrex : Z.of_nat (List.length rex) < 2 ^ 8)
    (Hbl : Z.of_nat (List.length rex) + Z.of_nat (len rk)
           + Z.of_nat (List.length rv) < 2 ^ 32)
    (Hcas : 0 <= cas' < 2 ^ 64) :
  exists w' cn',
    call item w = (Ok (set_casid item cas', None), w') /\
    trace w' = trace w ++ [EvGet index cn; EvPut index cn'] /\
    moved_on cn cn'
      (encode (Key item) cmd (Value item) cas
         (be_bytes 4 (Flags item)
          ++ be_bytes 4 (uint32 (Expiration item))))
      rest.
Proof.
  assert (Hc : call item = populateOne cmd item cas).
  { destruct Hcall as [(-> & -> & ->) | [(-> & -> & ->) | (-> & -> & ->)]];
      reflexivity. }
  rewrite Hc. clear Hc Hcall.
  destruct (GetConnection_serves w _ index cn Hserves)
    as (w1 & Hg & Hl & Hp & Htr).
  destruct Hserves as (Hpick & _).
  destruct (sendConnCommand_succeeds cn (Key item) cmd (Value item) cas
              (be_bytes 4 (Flags item)
               ++ be_bytes 4 (uint32 (Expiration item))) Hw)
    as (cn1 & Hs & Hw1 & Hid1 & Hin1 & Hwr1).
  assert (Hparse := parseResponse_response_frame (Key item) cn1 opcode rk rv
                      cas' rex rest Hrk Hrex Hbl ltac:(congruence)).
  eexists _, (with_incoming cn1 rest).
  unfold populateOne, bind, try, pick. rewrite Hpick, Hg.
  change (from 4 (putUint32 (make 8) (Flags item))
            (fun b => putUint32 b (uint32 (Expiration item))))
    with (be_bytes 4 (Flags item) ++ be_bytes 4 (uint32 (Expiration item))).
  rewrite Hs, Hparse.
  rewrite (PutConnection_Ok _ _ _ Hl Hp).
  unfold must. cbn [r_hdr].
  rewrite (response_frame_header_cas _ _ _ _ _ Hcas).
  split; [reflexivity|]. split.
  - cbn [trace]. rewrite Htr, <- app_assoc. reflexivity.
  - unfold moved_on. cbn. auto.
Qed.

Lemma store_success_witness :
  exists w' cn',
    CompareAndSwap example_item
      (one_server (response_frame cmdSet "" [] 77 [] ++ []))
    = (Ok (set_casid example_item 77, None), w') /\
    trace w'
    = trace (one_server (response_frame cmdSet "" [] 77 [] ++ []))
      ++ [EvGet 0 (conn_reading 1 (response_frame cmdSet "" [] 77 [] ++ []));
          EvPut 0 cn'] /\
    moved_on (conn_reading 1 (response_frame cmdSet "" [] 77 [] ++ [])) cn'
      (encode (Key example_item) cmdSet (Value example_item) 5
         (be_bytes 4 (Flags example_item)
          ++ be_bytes 4 (uint32 (Expiration example_item))))
      [].
Proof.
  apply (store_success CompareAndSwap cmdSet 5 _ example_item 0 _ cmdSet 77
           "" [] [] []).
  - right. right. repeat split.
  - repeat split; try (vm_compute; reflexivity).
    eexists. vm_compute. reflexivity.
  - constructor.
  - reflexivity.
  - vm_compute. reflexivity.
  - vm_compute. reflexivity.
  - vm_compute. reflexivity.
  - split; [discriminate | reflexivity].
Defined.

(** X12. [Increment] and [Decrement], when the server of the key hands out a
    connection, the request is written and the server answers with status
    [respOk] and a value of at least eight bytes: the call returns the
    number in the first eight bytes of the value, big-endian, and puts the
    connection back; the request written is the frame of [cmdIncr]
    ([cmdDecr]) for the key with twenty bytes of extras: the delta in eight
    bytes, eight zero bytes and four bytes 0xff. When the value has fewer
    than eight bytes the call panics, after the connection is put back. *)
Theorem incrDecr_outcome (call : string -> Z -> M Z) (cmd : Z) (w : World)
    (key : string) (delta : Z) (index : Z) (cn : Conn)
    (opcode cas' : Z) (rk : string) (rv rex rest : list byte)
    (Hcall : call = Increment /\ cmd = cmdIncr \/
             call = Decrement /\ cmd = cmdDecr)
    (Hserves : serves w key index cn)
    (Hw : writes_succeed cn)
    (Hin : incoming cn = response_frame opcode rk rv cas' rex ++ rest)
    (Hrk : Z.of_nat (len rk) < 2 ^ 16)
    (Hrex : Z.of_nat (List.length rex) < 2 ^ 8)
    (Hbl : Z.of_nat (List.length rex) + Z.of_nat (len rk)
           + Z.of_nat (List.length rv) < 2 ^ 32) :
  exists w' cn',
    call key delta w
    = (match bUint64 rv with Some v => Ok v | None => Panic end, w') /\
    (bUint64 rv = None <-> (List.length rv < 8)%nat) /\
    trace w' = trace w ++ [EvGet index cn; EvPut index cn'] /\
    moved_on cn cn'
      (encode key cmd [] 0
         (be_bytes 8 delta ++ repeat x00 8 ++ repeat xff 4))
      rest.
Proof.
  assert (Hc : call key delta = incrDecr cmd key delta).
  { destruct Hcall as [(-> & ->) | (-> & ->)]; reflexivity. }
  rewrite Hc. clear Hc Hcall.
  destruct (GetConnection_serves w _ index cn Hserves)
    as (w1 & Hg & Hl & Hp & Htr).
  destruct Hserves as (Hpick & _).
  destruct (sendConnCommand_succeeds cn key cmd [] 0
              (be_bytes 8 delta ++ repeat x00 8 ++ repeat xff 4) Hw)
    as (cn1 & Hs & Hw1 & Hid1 & Hin1 & Hwr1).
  assert (Hparse := parseResponse_response_frame key cn1 opcode rk rv
                      cas' rex rest Hrk Hrex Hbl ltac:(congruence)).
  eexists _, (with_incoming cn1 rest).
  unfold incrDecr, bind, pick. rewrite Hpick, Hg.
  change (<[19%nat:=xff]>
            (<[18%nat:=xff]>
               (<[17%nat:=xff]>
                  (<[16%nat:=xff]> (putUint64 (make 20) delta)))))
    with (be_bytes 8 delta ++ repeat x00 8 ++ repeat xff 4).
  rewrite Hs, Hparse.
  rewrite (switch_err_Ok _ _ _ _ Hl Hp).
  unfold must. cbn [r_value].
  split; [destruct (bUint64 rv); reflexivity|]. split; [|split].
  - unfold bUint64.
    do 8 (destruct rv as [|? rv]; [cbn; split; [lia | reflexivity]|]).
    cbn. split; [discriminate | lia].
  - cbn [trace]. rewrite Htr, <- app_assoc. reflexivity.
  - unfold moved_on. cbn. auto.
Qed.

Lemma incrDecr_outcome_witness :
  exists w' cn',
    Increment "n" 1
      (one_server (response_frame cmdIncr "" (be_bytes 8 42) 9 [] ++ []))
    = (match bUint64 (be_bytes 8 42) with Some v => Ok v | None => Panic end,
       w') /\
    (bUint64 (be_bytes 8 42) = None
     <-> (List.length (be_bytes 8 42) < 8)%nat) /\
    trace w'
    = trace (one_server (response_frame cmdIncr "" (be_bytes 8 42) 9 []
                         ++ []))
      ++ [EvGet 0 (conn_reading 1
                     (response_frame cmdIncr "" (be_bytes 8 42) 9 [] ++ []));
          EvPut 0 cn'] /\
    moved_on
      (conn_reading 1 (response_frame cmdIncr "" (be_bytes 8 42) 9 [] ++ []))
      cn'
      (encode "n" cmdIncr [] 0
         (be_bytes 8 1 ++ repeat x00 8 ++ repeat xff 4))
      [].
Proof.
  apply (incrDecr_outcome Increment cmdIncr _ "n" 1 0 _ cmdIncr 9 ""
           (be_bytes 8 42) [] []).
  - left. split; reflexivity.
  - repeat split; try (vm_compute; reflexivity).
    eexists. vm_compute. reflexivity.
  - constructor.
  - reflexivity.
  - vm_compute. reflexivity.
  - vm_compute. reflexivity.
  - vm_compute. reflexivity.
Defined.

(** X13. [Get] on a response with status [respOk] whose extras have one,
    two or three bytes: the flags are read as four bytes, and the call
    panics; the connection has been put back in the pool before. *)
Theorem Get_short_extras (w : World) (key rk : string) (index : Z)
    (cn : Conn) (opcode cas : Z) (value rex rest : list byte)
    (Hserves : serves w key index cn)
    (Hw : writes_succeed cn)
    (Hin : incoming cn = response_frame opcode rk value cas rex ++ rest)
    (Hrk : Z.of_nat (len rk) < 2 ^ 16)
    (Hrex : (0 < List.length rex < 4)%nat)
    (Hbl : Z.of_nat (List.length rex) + Z.of_nat (len rk)
           + Z.of_nat (List.length value) < 2 ^ 32) :
  exists w' cn',
    Get key w = (Panic, w') /\
    trace w' = trace w ++ [EvGet index cn; EvPut index cn'].
Proof.
  destruct (GetConnection_serves w key index cn Hserves)
    as (w1 & Hg & Hl & Hp & Htr).
  destruct Hserves as (Hpick & _).
  destruct (sendConnCommand_succeeds cn key cmdGet [] 0 [] Hw)
    as (cn1 & Hs & Hw1 & Hid1 & Hin1 & Hwr1).
  assert (Hparse := parseResponse_response_frame key cn1 opcode rk value cas
                      rex rest Hrk ltac:(change (2 ^ 8) with 256; lia) Hbl
                      ltac:(congruence)).
  eexists _, (with_incoming cn1 rest).
  unfold Get, bind, pick. rewrite Hpick, Hg, Hs, Hparse.
  rewrite (switch_err_Ok _ _ _ _ Hl Hp).
  unfold item_of_response, must. cbn [r_extras r_hdr r_key r_value].
  assert (Hf : (if (0 <? List.length rex)%nat then bUint32 rex else Some 0)
               = None).
  { destruct rex as [|a [|b [|c [|d rex]]]]; cbn in Hrex |- *;
      try reflexivity; lia. }
  rewrite Hf. split; [reflexivity|].
  cbn [trace]. rewrite Htr, <- app_assoc. reflexivity.
Qed.

Lemma Get_short_extras_witness :
  exists w' cn',
    Get "a"
      (one_server (response_frame cmdGet "" (stobs "1") 7 (stobs "xy")
                   ++ []))
    = (Panic, w') /\
    trace w'
    = trace (one_server (response_frame cmdGet "" (stobs "1") 7 (stobs "xy")
                         ++ []))
      ++ [EvGet 0 (conn_reading 1
                     (response_frame cmdGet "" (stobs "1") 7 (stobs "xy")
                      ++ []));
          EvPut 0 cn'].
Proof.
  apply (Get_short_extras _ "a" "" 0 _ cmdGet 7 (stobs "1") (stobs "xy") []).
  - repeat split; try (vm_compute; reflexivity).
    eexists. vm_compute. reflexivity.
  - constructor.
  - reflexivity.
  - vm_compute. reflexivity.
  - cbn. lia.
  - vm_compute. reflexivity.
Defined.

(** ** The batch get, step by step *)

Lemma group_keys_lookup s keys :
  forall keyMap keyMap' index,
    group_keys s keys keyMap = Ok keyMap' ->
    default [] (keyMap' !! index)
    = default [] (keyMap !! index) ++ List.filter (picks s index) keys.
Proof.
  induction keys as [|key keys IH]; intros keyMap keyMap' index H;
    cbn [group_keys] in H.
  - injection H as <-. cbn. now rewrite app_nil_r.
  - cbn [List.filter].
    assert (Hpk : picks s index key
                  = match PickServerIndex s key with
                    | Ok i => i =? index
                    | _ => false
                    end) by reflexivity.
    rewrite Hpk. clear Hpk.
    destruct (PickServerIndex s key) as [i | e |] eqn:Hp;
      try discriminate H.
    rewrite (IH _ _ index H).
    destruct (i =? index) eqn:E.
    + apply Z.eqb_eq in E. subst i. rewrite lookup_insert_eq. cbn.
      now rewrite <- app_assoc.
    + apply Z.eqb_neq in E. now rewrite lookup_insert_ne by exact E.
Qed.

(** X14. The grouping of [GetMulti]: the keys a server index is given are
    the keys of the list that the shard selection sends to that index, in the
    order of the list and as many times as they are in it; an index no key
    is sent to has no group. *)
Theorem group_keys_by_server (s : ServerList) (keys : list string)
    (keyMap : gmap Z (list string)) (index : Z)
    (H : group_keys s keys ∅ = Ok keyMap) :
  default [] (keyMap !! index) = List.filter (picks s index) keys /\
  (keyMap !! index = None <-> List.filter (picks s index) keys = []).
Proof.
  pose proof (group_keys_lookup s keys ∅ keyMap index H) as HL.
  rewrite lookup_empty in HL. cbn in HL. split; [exact HL|].
  split.
  - intros Hn. rewrite Hn in HL. cbn in HL. now rewrite <- HL.
  - intros Hf. destruct (keyMap !! index) as [ks|] eqn:E; [|reflexivity].
    exfalso. cbn in HL. rewrite Hf in HL. subst ks.
    revert E. clear Hf. revert H.
    assert (Hinv : forall keys km km',
               (forall i, km !! i <> Some []) ->
               group_keys s keys km = Ok km' ->
               forall i, km' !! i <> Some []).
    { clear. induction keys as [|key keys IH]; intros km km' Hkm Hg i;
        cbn [group_keys] in Hg.
      - injection Hg as <-. apply Hkm.
      - destruct (PickServerIndex s key) as [j | e |]; try discriminate Hg.
        eapply IH; [|exact Hg]. intros i'.
        destruct (decide (j = i')) as [-> | Hne].
        + rewrite lookup_insert_eq. intros [= Habs].
          destruct (default [] (km !! i')); discriminate Habs.
        + rewrite lookup_insert_ne by exact Hne. apply Hkm. }
    intros Hg E. eapply (Hinv keys ∅ keyMap); [|exact Hg | exact E].
    intros i. rewrite lookup_empty. discriminate.
Qed.

Lemma group_keys_by_server_witness :
  exists keyMap,
    group_keys (servers one_down) ["d"; "a"; "e"; "a"] ∅ = Ok keyMap /\
    default [] (keyMap !! 0) = ["d"; "e"] /\
    default [] (keyMap !! 1) = ["a"; "a"].
Proof.
  pose proof (group_keys_by_server (servers one_down) ["d"; "a"; "e"; "a"])
    as T.
  destruct (group_keys _ _ _) as [keyMap | e |] eqn:H;
    [|vm_compute in H; discriminate H ..].
  exists keyMap. split; [reflexivity|].
  rewrite (proj1 (T keyMap 0 eq_refl)), (proj1 (T keyMap 1 eq_refl)).
  split; vm_compute; reflexivity.
Defined.

(** X15. A client with no server: every single-key operation returns
    [ErrNoServers]; [GetMulti] returns it for a list with a key in it and
    the empty mapping, with a nil error, for the empty list; [Flush] returns
    nil. None asks a pool for anything. *)
Theorem no_servers (w : World) (key : string) (keys : list string)
    (item : Item) (cmd cas delta expiration : Z)
    (Hno : pool (servers w) = [])
    (Hlen : poolLen (servers w) = 0) :
  Get key w = (Err ErrNoServers, w) /\
  populateOne cmd item cas w = (Ok (item, Some ErrNoServers), w) /\
  Delete key w = (Err ErrNoServers, w) /\
  incrDecr cmd key delta w = (Err ErrNoServers, w) /\
  GetMulti keys w
  = (match keys with [] => Ok ∅ | _ :: _ => Err ErrNoServers end, w) /\
  Flush expiration w = (Ok tt, w).
Proof.
  assert (Hp : forall k, PickServerIndex (servers w) k = Err ErrNoServers).
  { intros k. unfold PickServerIndex. now rewrite Hno. }
  repeat apply conj.
  - unfold Get, bind, pick. now rewrite Hp.
  - unfold populateOne, bind, try, pick. now rewrite Hp.
  - unfold Delete, bind, pick. now rewrite Hp.
  - unfold incrDecr, bind, pick. now rewrite Hp.
  - unfold GetMulti. destruct keys as [|k keys]; cbn [group_keys].
    + rewrite map_to_list_empty. reflexivity.
    + now rewrite Hp.
  - unfold Flush, PoolLen, bind. rewrite Hlen. reflexivity.
Qed.

Lemma no_servers_witness :
  Get "a" (example_world []) = (Err ErrNoServers, example_world []) /\
  GetMulti [] (example_world []) = (Ok ∅, example_world []) /\
  Flush 0 (example_world []) = (Ok tt, example_world []).
Proof.
  destruct (no_servers (example_world []) "a" [] example_item cmdSet 0 1 0
              eq_refl eq_refl) as (HG & _ & _ & _ & HM & HF).
  repeat split; assumption.
Defined.

(** The frames of the requests of a task for its keys. *)
Lemma send_keys_succeeds keys : forall cn,
  writes_succeed cn ->
  exists cn',
    send_keys cn keys = (None, cn') /\
    writes_succeed cn' /\
    conn_id cn' = conn_id cn /\ incoming cn' = incoming cn /\
    written cn'
    = written cn
      ++ concat (map (fun k => encode k cmdGetKQ [] 0 []) keys).
Proof.
  induction keys as [|k keys IH]; intros cn Hw; cbn [send_keys map concat].
  - exists cn. rewrite app_nil_r. repeat split. exact Hw.
  - destruct (sendConnCommand_succeeds cn k cmdGetKQ [] 0 [] Hw)
      as (cn1 & Hs & Hw1 & Hid1 & Hin1 & Hwr1).
    rewrite Hs. destruct (IH cn1 Hw1) as (cn2 & Hs2 & Hw2 & Hid2 & Hin2 & Hwr2).
    exists cn2. split; [exact Hs2|].
    repeat split; try congruence.
    rewrite Hwr2, Hwr1, <- app_assoc. reflexivity.
Qed.



Lemma read_items_frames hits : forall fuel cn rest,
  Forall hit_ok hits ->
  (List.length hits < fuel)%nat ->
  incoming cn = concat (map hit_frame hits) ++ noop_frame ++ rest ->
  read_items fuel cn = Some (Ok (map hit_item hits), with_incoming cn rest).
Proof.
  induction hits as [|h hits IH]; intros fuel cn rest Hok Hfuel Hin;
    (destruct fuel as [|fuel]; [cbn in Hfuel; lia|]); cbn [read_items].
  - cbn [map concat app] in Hin.
    rewrite (parseResponse_response_frame "" cn cmdNoop "" [] 0 [] rest)
      by (try exact Hin; cbn; lia).
    reflexivity.
  - inversion Hok as [|? ? (Hk & Hf & Hc & Hb) Hok']; subst.
    cbn [map concat] in Hin. rewrite <- app_assoc in Hin.
    rewrite (parseResponse_response_frame "" cn cmdGetKQ (h_key h)
               (h_value h) (h_cas h) (be_bytes 4 (h_flags h))
               (concat (map hit_frame hits) ++ noop_frame ++ rest))
      by (try exact Hin; cbn [List.length be_bytes]; lia).
    cbn [r_key r_extras r_hdr r_value].
    destruct (List.length (stobs (h_key h)) =? 0)%nat eqn:E;
      [apply Nat.eqb_eq in E; unfold len in Hk; lia|].
    unfold item_of_response. cbn [r_key r_extras r_hdr r_value].
    rewrite (response_frame_header_cas _ _ _ _ _ Hc).
    change (0 <? List.length (be_bytes 4 (h_flags h)))%nat with true.
    cbn match. unfold bUint32.
    rewrite (be_read_be_bytes_small 4 (h_flags h)) by exact Hf.
    unfold bstos, stobs. rewrite string_of_list_byte_of_string.
    rewrite (IH fuel
               (with_incoming cn
                  (concat (map hit_frame hits) ++ noop_frame ++ rest))
               rest Hok' ltac:(cbn in Hfuel; lia) eq_refl).
    reflexivity.
Qed.

Lemma length_response_frame opcode key value cas extras :
  (24 <= List.length (response_frame opcode key value cas extras))%nat.
Proof.
  unfold response_frame, as_response.
  rewrite length_insert, encode_frame, length_app, length_request_header.
  apply Nat.le_add_r.
Qed.

Lemma length_hit_frames hits :
  (List.length hits <= List.length (concat (map hit_frame hits)))%nat.
Proof.
  induction hits as [|h hits IH]; cbn [map concat List.length]; [lia|].
  rewrite length_app.
  pose proof (length_response_frame cmdGetKQ (h_key h) (h_value h) (h_cas h)
                (be_bytes 4 (h_flags h))) as H.
  fold (hit_frame h) in H. lia.
Qed.

(** X17. The reading loop of a task of [GetMulti], on the answers of a
    server to a pipeline: for each item found, the response to its
    [cmdGetKQ] with its key, and at the end the response to the [cmdNoop].
    The loop returns the items in the order of the responses, each with the
    key, value, flags and cas value of its response, stops at the response
    without a key, and leaves what follows it unread. *)
Theorem read_items_pipeline (hits : list Hit) (cn : Conn) (rest : list byte)
    (Hok : Forall hit_ok hits)
    (Hin : incoming cn = concat (map hit_frame hits) ++ noop_frame ++ rest) :
  read_items (S (List.length (incoming cn))) cn
  = Some (Ok (map hit_item hits), with_incoming cn rest).
Proof.
  apply read_items_frames; [exact Hok | | exact Hin].
  rewrite Hin, length_app. pose proof (length_hit_frames hits). lia.
Qed.

Lemma read_items_pipeline_witness :
  read_items
    (S (List.length
          (incoming
             (conn_reading 1
                (concat (map hit_frame [mkHit "a" (stobs "1") 123 7;
                                        mkHit "c" (stobs "3") 0 9])
                 ++ noop_frame ++ [])))))
    (conn_reading 1
       (concat (map hit_frame [mkHit "a" (stobs "1") 123 7;
                               mkHit "c" (stobs "3") 0 9])
        ++ noop_frame ++ []))
  = Some (Ok [mkItem "a" (stobs "1") 123 0 7; mkItem "c" (stobs "3") 0 0 9],
          conn_reading 1 []).
Proof.
  apply (read_items_pipeline [mkHit "a" (stobs "1") 123 7;
                              mkHit "c" (stobs "3") 0 9]
           (conn_reading 1
              (concat (map hit_frame [mkHit "a" (stobs "1") 123 7;
                                      mkHit "c" (stobs "3") 0 9])
               ++ noop_frame ++ [])) []).
  - repeat constructor; cbn; lia.
  - reflexivity.
Defined.

Lemma merge_items_snoc items item :
  merge_items (items ++ [item])
  = <[Key item := item]> (merge_items items).
Proof. unfold merge_items. now rewrite foldl_app. Qed.

(** X18. The mapping [GetMulti] makes of the items it receives: a key is in
    it exactly when an item with that key was received, and when several
    were, the last one received is the one the mapping keeps. *)
Theorem merge_items_last (items : list Item) (key : string) :
  merge_items items !! key
  = last (List.filter (fun item => String.eqb (Key item) key) items).
Proof.
  induction items as [|item items IH] using rev_ind; [reflexivity|].
  rewrite merge_items_snoc, List.filter_app. cbn [List.filter].
  destruct (String.eqb (Key item) key) eqn:E.
  - apply String.eqb_eq in E. subst key.
    rewrite lookup_insert_eq. now rewrite last_snoc.
  - apply String.eqb_neq in E.
    rewrite lookup_insert_ne by exact E. now rewrite app_nil_r.
Qed.

Lemma group_keys_one_index s keys : forall keyMap,
  (forall key, PickServerIndex s key = Ok 0) ->
  keys <> [] ->
  group_keys s keys keyMap
  = Ok (<[0 := default [] (keyMap !! 0) ++ keys]> keyMap).
Proof.
  induction keys as [|key keys IH]; intros keyMap Hp Hne; [congruence|].
  cbn [group_keys]. rewrite Hp.
  destruct keys as [|key' keys].
  - reflexivity.
  - rewrite IH by (try assumption; discriminate).
    rewrite lookup_insert_eq, insert_insert_eq. cbn.
    now rewrite <- app_assoc.
Qed.

(** X19. [GetMulti] on a client with one server, whose pool hands out a
    connection on which the requests are written and the server answers the
    pipeline with the items it has and the final no-op: the call returns,
    with a nil error, the mapping of these items by their keys. *)
Theorem GetMulti_one_server (w : World) (keys : list string) (cn : Conn)
    (more : list acquired) (hits : list Hit) (rest : list byte)
    (Hpool : pool (servers w) = [mkPool (GotConn cn :: more)])
    (Hlen : poolLen (servers w) = 1)
    (Hkeys : keys <> [])
    (Hw : writes_succeed cn)
    (Hok : Forall hit_ok hits)
    (Hin : incoming cn = concat (map hit_frame hits) ++ noop_frame ++ rest) :
  exists w',
    GetMulti keys w = (Ok (merge_items (map hit_item hits)), w').
Proof.
  assert (Hp : forall key, PickServerIndex (servers w) key = Ok 0).
  { intros key. unfold PickServerIndex. rewrite Hpool. cbn.
    now rewrite Z.mod_1_r. }
  unfold GetMulti. rewrite (group_keys_one_index _ _ _ Hp Hkeys).
  rewrite lookup_empty. cbn [default app]. rewrite insert_empty.
  rewrite map_to_list_singleton. cbn [run_tasks].
  assert (Hg : exists w1, GetConnection 0 w = (Ok cn, w1)).
  { unfold GetConnection. rewrite Hlen, Hpool. cbn. eauto. }
  destruct Hg as [w1 Hg].
  destruct (send_keys_succeeds keys cn Hw)
    as (cn1 & Hs & Hw1 & Hid1 & Hin1 & Hwr1).
  destruct (sendConnCommand_succeeds cn1 "" cmdNoop [] 0 [] Hw1)
    as (cn2 & Hn & Hw2 & Hid2 & Hin2 & Hwr2).
  assert (Hin' : incoming cn2
                 = concat (map hit_frame hits) ++ noop_frame ++ rest)
    by congruence.
  assert (Hr : read_items (S (List.length (incoming cn2))) cn2
               = Some (Ok (map hit_item hits), with_incoming cn2 rest)).
  { apply read_items_frames; [exact Hok | | exact Hin'].
    rewrite Hin', length_app. pose proof (length_hit_frames hits). lia. }
  exists w1. unfold bind, GetMulti_task. rewrite Hg, Hs, Hn, Hr.
  cbn. now rewrite app_nil_r.
Qed.

Lemma GetMulti_one_server_witness :
  exists w',
    GetMulti ["a"; "b"; "c"]
      (one_server
         (concat (map hit_frame [mkHit "a" (stobs "1") 123 7;
                                 mkHit "c" (stobs "3") 0 9])
          ++ noop_frame ++ []))
    = (Ok (merge_items
             (map hit_item [mkHit "a" (stobs "1") 123 7;
                            mkHit "c" (stobs "3") 0 9])), w').
Proof.
  apply (GetMulti_one_server _ ["a"; "b"; "c"]
           (conn_reading 1
              (concat (map hit_frame [mkHit "a" (stobs "1") 123 7;
                                      mkHit "c" (stobs "3") 0 9])
               ++ noop_frame ++ []))
           [] _ []).
  - reflexivity.
  - reflexivity.
  - discriminate.
  - constructor.
  - repeat constructor; cbn; lia.
  - reflexivity.
Defined.

(** Decoding writes nothing. *)
Lemma parseResponse_Ok_inv_written rKey cn resp cn' :
  parseResponse rKey cn = (Ok resp, cn') -> written cn' = written cn.
Proof.
  unfold parseResponse. intros H.
  run_cases H; injection H as _ <-;
    repeat match goal with
           | Hr : readAtLeast _ _ = (Ok _, _) |- _ =>
               apply readAtLeast_Ok_inv in Hr;
               destruct Hr as (_ & _ & Hr); rewrite Hr
           | Hr : read_field _ _ = (Ok _, _) |- _ =>
               apply read_field_Ok_inv in Hr;
               destruct Hr as (_ & _ & Hr); rewrite Hr
           end; reflexivity.
Qed.

(** ** The factory of the connections *)

Lemma has_prefix_spec s p : has_prefix s p = true <-> exists b, s = p ++ b.
Proof.
  revert s. induction p as [|x p IH]; intros [|a s]; cbn [has_prefix].
  - split; [now exists [] | reflexivity].
  - split; [eauto | reflexivity].
  - split; [discriminate | intros [b Hb]; discriminate].
  - destruct (Byte.eqb a x) eqn:E.
    + apply Byte.byte_dec_bl in E. subst a. rewrite IH. split.
      * intros [b ->]. now exists b.
      * intros [b Hb]. injection Hb as ->. now exists b.
    + split; [discriminate|]. intros [b Hb]. injection Hb as -> _.
      rewrite Byte.byte_dec_lb in E by reflexivity. discriminate.
Qed.

(** [strings_Index] is -1 exactly when the string has no occurrence of the
    other. *)
Lemma strings_Index_spec s substr :
  strings_Index s substr <> -1 <-> exists a b, s = a ++ substr ++ b.
Proof.
  unfold strings_Index.
  assert (H : forall s i, 0 <= i ->
              (Index_from i s substr = -1 \/ i <= Index_from i s substr) /\
              (Index_from i s substr <> -1
               <-> exists a b, s = a ++ substr ++ b)).
  { clear s. induction s as [|x s IH]; intros i Hi; cbn [Index_from].
    - destruct (has_prefix [] substr) eqn:E.
      + split; [right; lia|]. split; [|lia]. intros _.
        apply has_prefix_spec in E. destruct E as [b Hb]. now exists [], b.
      + split; [now left|]. split; [congruence|].
        intros (a & b & Hab). destruct a; [|discriminate].
        assert (has_prefix [] substr = true)
          by (apply has_prefix_spec; eexists; exact Hab).
        congruence.
    - destruct (has_prefix (x :: s) substr) eqn:E.
      + split; [right; lia|]. split; [|lia]. intros _.
        apply has_prefix_spec in E. destruct E as [b Hb]. now exists [], b.
      + destruct (IH (i + 1) ltac:(lia)) as [Hr Hiff].
        split; [destruct Hr; [now left | right; lia]|].
        rewrite Hiff. split.
        * intros (a & b & ->). now exists (x :: a), b.
        * intros (a & b & Hab). destruct a as [|y a].
          -- assert (has_prefix (x :: s) substr = true)
               by (apply has_prefix_spec; eexists; exact Hab).
             congruence.
          -- injection Hab as -> ->. now exists a, b. }
  apply H. lia.
Qed.

(** X20. What a connection the factory hands to the pool has gone through.
    Without credentials it is the connection dialled, untouched. With
    credentials, the request for the mechanisms was written and answered
    with status [respOk]; and when the answer names PLAIN, the request
    that starts PLAIN with the user and the password was written next and
    answered with status [respOk], while when it does not, nothing more was
    written: the connection is handed out as it is. *)
Theorem factory_Ok (config : Config) (cn cn' : Conn)
    (H : factory config (Ok cn) = Ok cn') :
  if has_credentials config then
    exists resp c1 c2,
      incoming c1 = incoming cn /\
      parseResponse "" c1 = (Ok resp, c2) /\
      if negb (strings_Index (r_value resp) (stobs "PLAIN") =? -1) then
        exists c3 resp2,
          incoming c3 = incoming c2 /\
          parseResponse "PLAIN" c3 = (Ok resp2, cn') /\
          written cn'
          = written cn ++ encode "" opAuthList [] 0 []
            ++ encode "PLAIN" opAuthStart
                 (plain_payload (User config) (Password config)) 0 []
      else
        cn' = c2 /\
        written cn' = written cn ++ encode "" opAuthList [] 0 []
  else cn' = cn.
Proof.
  unfold factory, has_credentials in *.
  destruct (String.eqb (User config) "" && String.eqb (Password config) "");
    cbn [negb]; [now injection H as <-|].
  destruct (sendConnCommand cn "" opAuthList [] 0 []) as [[e|] c1] eqn:Hs1;
    [discriminate H|].
  destruct (parseResponse "" c1) as [[resp | e |] c2] eqn:Hp1;
    try discriminate H.
  destruct (sendConnCommand_cases _ _ _ _ _ _ _ _ Hs1) as (_ & Hin1 & Hwr1).
  pose proof (parseResponse_Ok_inv_written "" _ _ _ Hp1) as Hc2.
  exists resp, c1, c2. split; [exact Hin1|]. split; [exact Hp1|].
  destruct (negb (strings_Index (r_value resp) (stobs "PLAIN") =? -1)).
  - destruct (sendConnCommand c2 "PLAIN" opAuthStart _ 0 [])
      as [[e|] c3] eqn:Hs2; [discriminate H|].
    destruct (parseResponse "PLAIN" c3) as [[resp2 | e |] c4] eqn:Hp2;
      try discriminate H.
    injection H as <-.
    destruct (sendConnCommand_cases _ _ _ _ _ _ _ _ Hs2) as (_ & Hin2 & Hwr2).
    pose proof (parseResponse_Ok_inv_written "PLAIN" _ _ _ Hp2) as Hc4.
    exists c3, resp2. split; [exact Hin2|]. split; [exact Hp2|].
    rewrite Hc4, Hwr2, Hc2, Hwr1, <- app_assoc. reflexivity.
  - injection H as <-. split; [reflexivity|]. now rewrite Hc2.
Qed.

Lemma factory_Ok_witness :
  exists cn',
    factory (mkConfig "a:11211" "my_user1" "my_password")
      (Ok (conn_reading 1
             (response_frame opAuthList "" (stobs "CRAM-MD5 PLAIN") 0 []
              ++ response_header respOk 0)))
    = Ok cn' /\
    if has_credentials (mkConfig "a:11211" "my_user1" "my_password") then
      exists resp c1 c2,
        incoming c1
        = incoming
            (conn_reading 1
               (response_frame opAuthList "" (stobs "CRAM-MD5 PLAIN") 0 []
                ++ response_header respOk 0)) /\
        parseResponse "" c1 = (Ok resp, c2) /\
        if negb (strings_Index (r_value resp) (stobs "PLAIN") =? -1) then
          exists c3 resp2,
            incoming c3 = incoming c2 /\
            parseResponse "PLAIN" c3 = (Ok resp2, cn') /\
            written cn'
            = written
                (conn_reading 1
                   (response_frame opAuthList "" (stobs "CRAM-MD5 PLAIN") 0 []
                    ++ response_header respOk 0))
              ++ encode "" opAuthList [] 0 []
              ++ encode "PLAIN" opAuthStart
                   (plain_payload
                      (User (mkConfig "a:11211" "my_user1" "my_password"))
                      (Password (mkConfig "a:11211" "my_user1" "my_password")))
                   0 []
        else
          cn' = c2 /\
          written cn'
          = written
              (conn_reading 1
                 (response_frame opAuthList "" (stobs "CRAM-MD5 PLAIN") 0 []
                  ++ response_header respOk 0))
            ++ encode "" opAuthList [] 0 []
    else
      cn' = conn_reading 1
              (response_frame opAuthList "" (stobs "CRAM-MD5 PLAIN") 0 []
               ++ response_header respOk 0).
Proof.
  pose proof (factory_Ok (mkConfig "a:11211" "my_user1" "my_password")
                (conn_reading 1
                   (response_frame opAuthList "" (stobs "CRAM-MD5 PLAIN") 0 []
                    ++ response_header respOk 0))) as T.
  destruct (factory _ _) as [cn' | e |] eqn:H;
    [|vm_compute in H; discriminate H ..].
  exists cn'. split; [reflexivity | exact (T cn' eq_refl)].
Defined.

(** X21. With credentials, on a connection whose writes succeed, when the
    server names PLAIN among its mechanisms and answers the request that
    starts it with a status that is not [respOk]: the factory fails, with
    the error of that status, and hands no connection to the pool. *)
Theorem factory_rejected (config : Config) (cn : Conn)
    (opcode cas : Z) (rk : string) (mechs rex hdr rest : list byte)
    (magic : byte) (status total : Z)
    (Hcred : has_credentials config = true)
    (Hw : writes_succeed cn)
    (Hin : incoming cn
           = response_frame opcode rk mechs cas rex ++ hdr ++ rest)
    (Hrk : Z.of_nat (len rk) < 2 ^ 16)
    (Hrex : Z.of_nat (List.length rex) < 2 ^ 8)
    (Hbl : Z.of_nat (List.length rex) + Z.of_nat (len rk)
           + Z.of_nat (List.length mechs) < 2 ^ 32)
    (Hplain : strings_Index mechs (stobs "PLAIN") <> -1)
    (Hhdr : List.length hdr = 24%nat)
    (H0 : hdr !! 0%nat = Some magic)
    (Hm : Z_of_byte magic = respMagic)
    (Hs : bUint16 (slice 6 8 hdr) = Some status)
    (Hst : status <> respOk)
    (Ht : bUint32 (slice 8 12 hdr) = Some total)
    (Htot : total <= Z.of_nat (List.length rest)) :
  factory config (Ok cn) = Err (asError status).
Proof.
  unfold factory. unfold has_credentials in Hcred.
  apply negb_true_iff in Hcred. rewrite Hcred.
  destruct (sendConnCommand_succeeds cn "" opAuthList [] 0 [] Hw)
    as (c1 & Hs1 & Hw1 & Hid1 & Hin1 & Hwr1).
  rewrite Hs1.
  rewrite (parseResponse_response_frame "" c1 opcode rk mechs cas rex
             (hdr ++ rest) Hrk Hrex Hbl ltac:(congruence)).
  cbn [r_value].
  destruct (strings_Index mechs (stobs "PLAIN") =? -1) eqn:E; [lia|].
  cbn [negb].
  destruct (sendConnCommand_succeeds (with_incoming c1 (hdr ++ rest)) "PLAIN"
              opAuthStart (plain_payload (User config) (Password config)) 0 []
              ltac:(exact Hw1))
    as (c3 & Hs3 & Hw3 & Hid3 & Hin3 & Hwr3).
  rewrite Hs3.
  rewrite (parseResponse_status "PLAIN" c3 hdr rest magic status total
             Hin3 Hhdr H0 Hm Hs Hst Ht Htot).
  unfold status_error.
  replace (legalKey "PLAIN") with true by (vm_compute; reflexivity).
  cbn [negb]. now rewrite andb_false_r.
Qed.

Lemma factory_rejected_witness :
  factory (mkConfig "a:11211" "my_user1" "wrong")
    (Ok (conn_reading 1
           (response_frame opAuthList "" (stobs "PLAIN") 0 []
            ++ response_header 8 0 ++ [])))
  = Err (asError 8).
Proof.
  apply (factory_rejected _ _ opAuthList 0 "" (stobs "PLAIN") []
           (response_header 8 0) [] (byte_of_Z respMagic) 8 0);
    try reflexivity; try discriminate.
  constructor.
Defined.

(** X22. With credentials, on a connection whose writes succeed, when the
    answer of the server to the request for the mechanisms does not name
    PLAIN: the factory hands the connection to the pool with nothing
    written but that request - no credentials are sent and nothing is
    checked. *)
Theorem factory_no_plain (config : Config) (cn : Conn)
    (opcode cas : Z) (rk : string) (mechs rex rest : list byte)
    (Hcred : has_credentials config = true)
    (Hw : writes_succeed cn)
    (Hin : incoming cn = response_frame opcode rk mechs cas rex ++ rest)
    (Hrk : Z.of_nat (len rk) < 2 ^ 16)
    (Hrex : Z.of_nat (List.length rex) < 2 ^ 8)
    (Hbl : Z.of_nat (List.length rex) + Z.of_nat (len rk)
           + Z.of_nat (List.length mechs) < 2 ^ 32)
    (Hplain : forall a b, mechs <> a ++ stobs "PLAIN" ++ b) :
  exists cn',
    factory config (Ok cn) = Ok cn' /\
    moved_on cn cn' (encode "" opAuthList [] 0 []) rest.
Proof.
  unfold factory. unfold has_credentials in Hcred.
  apply negb_true_iff in Hcred. rewrite Hcred.
  destruct (sendConnCommand_succeeds cn "" opAuthList [] 0 [] Hw)
    as (c1 & Hs1 & Hw1 & Hid1 & Hin1 & Hwr1).
  rewrite Hs1.
  rewrite (parseResponse_response_frame "" c1 opcode rk mechs cas rex
             rest Hrk Hrex Hbl ltac:(congruence)).
  cbn [r_value].
  destruct (strings_Index mechs (stobs "PLAIN") =? -1) eqn:E.
  - cbn [negb]. eexists. split; [reflexivity|].
    unfold moved_on. cbn. auto.
  - exfalso. apply Z.eqb_neq in E. apply strings_Index_spec in E.
    destruct E as (a & b & Hab). exact (Hplain a b Hab).
Qed.

Lemma factory_no_plain_witness :
  exists cn',
    factory (mkConfig "a:11211" "my_user1" "my_password")
      (Ok (conn_reading 1
             (response_frame opAuthList "" (stobs "CRAM-MD5") 0 [] ++ [])))
    = Ok cn' /\
    moved_on
      (conn_reading 1
         (response_frame opAuthList "" (stobs "CRAM-MD5") 0 [] ++ []))
      cn' (encode "" opAuthList [] 0 []) [].
Proof.
  apply (factory_no_plain _ _ opAuthList 0 "" (stobs "CRAM-MD5") [] []);
    try reflexivity.
  - constructor.
  - intros a b Hab.
    assert (Hi : strings_Index (stobs "CRAM-MD5") (stobs "PLAIN") <> -1)
      by (apply strings_Index_spec; eauto).
    vm_compute in Hi. congruence.
Defined.

(** ** The flush, end to end *)

(** X23. [Flush] on a client with one server, whose pool hands out a
    connection on which the request is written and answered with status
    [respOk]: the call returns nil and puts the connection back; the request
    written is the frame of [cmdFlush] with no key and no value, and as
    extras the expiration in four bytes, big-endian, when it is positive
    and nothing when it is zero or negative. *)
Theorem Flush_one_server (w : World) (expiration : Z) (cn : Conn)
    (more : list acquired) (opcode cas : Z) (rest : list byte)
    (Hpool : pool (servers w) = [mkPool (GotConn cn :: more)])
    (Hlen : poolLen (servers w) = 1)
    (Hw : writes_succeed cn)
    (Hin : incoming cn = response_frame opcode "" [] cas [] ++ rest) :
  exists w' cn',
    Flush expiration w = (Ok tt, w') /\
    trace w' = trace w ++ [EvGet 0 cn; EvPut 0 cn'] /\
    moved_on cn cn'
      (encode "" cmdFlush [] 0
         (if 0 <? expiration then be_bytes 4 (uint32 expiration) else []))
      rest.
Proof.
  assert (Hg : exists w1,
             GetConnection 0 w = (Ok cn, w1) /\
             (poolLen (servers w1) <? 0) = false /\
             is_Some (pool (servers w1) !! Z.to_nat 0) /\
             trace w1 = trace w ++ [EvGet 0 cn]).
  { destruct (GetConnection 0 w) as [r w1] eqn:Hg.
    assert (r = Ok cn).
    { revert Hg. unfold GetConnection. rewrite Hlen, Hpool. cbn.
      now intros [= <- _]. }
    subst r. exists w1. split; [reflexivity|].
    apply GetConnection_Ok in Hg. tauto. }
  destruct Hg as (w1 & Hg & Hl & Hp & Htr).
  set (extras := if 0 <? expiration then be_bytes 4 (uint32 expiration)
                 else []).
  destruct (sendConnCommand_succeeds cn "" cmdFlush [] 0 extras Hw)
    as (cn1 & Hs & Hw1 & Hid1 & Hin1 & Hwr1).
  assert (Hparse := parseResponse_response_frame "" cn1 opcode "" [] cas
                      [] rest ltac:(cbn; lia) ltac:(cbn; lia)
                      ltac:(cbn; lia) ltac:(congruence)).
  eexists _, (with_incoming cn1 rest).
  unfold Flush, PoolLen. rewrite Hlen.
  change (Z.to_nat 1) with 1%nat.
  change (if 0 <? expiration
          then putUint32 (make 4) (uint32 expiration) else [])
    with extras.
  unfold bind. cbn [Flush_loop]. unfold bind, try.
  rewrite Hg, Hs, Hparse.
  rewrite (switch_err_Ok _ _ _ _ Hl Hp). cbn.
  split; [reflexivity|]. split.
  - rewrite Htr, <- app_assoc. reflexivity.
  - unfold moved_on. cbn. auto.
Qed.

Lemma Flush_one_server_witness :
  exists w' cn',
    Flush 60 (one_server (response_frame cmdFlush "" [] 0 [] ++ []))
    = (Ok tt, w') /\
    trace w'
    = trace (one_server (response_frame cmdFlush "" [] 0 [] ++ []))
      ++ [EvGet 0 (conn_reading 1 (response_frame cmdFlush "" [] 0 [] ++ []));
          EvPut 0 cn'] /\
    moved_on (conn_reading 1 (response_frame cmdFlush "" [] 0 [] ++ [])) cn'
      (encode "" cmdFlush [] 0
         (if 0 <? 60 then be_bytes 4 (uint32 60) else []))
      [].
Proof.
  apply (Flush_one_server _ 60 _ [] cmdFlush 0 []); try reflexivity.
  constructor.
Defined.

(** ** Witnesses of the lifecycle *)

Lemma Get_lifecycle_witness :
  exists r w',
    Get "a" (one_server (response_header respKeyNotFound 0)) = (r, w') /\
    r = Err ErrCacheMiss /\
    policy_applied (trace (one_server (response_header respKeyNotFound 0)))
      (trace w') (err_of r).
Proof.
  destruct (Get "a" (one_server (response_header respKeyNotFound 0)))
    as [r w'] eqn:H.
  exists r, w'. split; [reflexivity|]. split.
  - vm_compute in H. now injection H as <- _.
  - exact (Get_lifecycle _ _ _ _ H).
Defined.

Lemma populateOne_lifecycle_witness :
  exists r w',
    populateOne cmdAdd example_item 0
      (one_server (response_header respKeyExists 0)) = (r, w') /\
    r = Ok (example_item, Some ErrNotStored) /\
    policy_applied (trace (one_server (response_header respKeyExists 0)))
      (trace w') (match r with Ok (_, o) => o | _ => None end).
Proof.
  destruct (populateOne cmdAdd example_item 0
              (one_server (response_header respKeyExists 0)))
    as [r w'] eqn:H.
  exists r, w'. split; [reflexivity|]. split.
  - vm_compute in H. now injection H as <- _.
  - exact (populateOne_lifecycle _ _ _ _ _ _ H).
Defined.

Lemma Delete_lifecycle_witness :
  exists r w',
    Delete "a" (one_server (stobs "junk")) = (r, w') /\
    r = Err io_EOF /\
    policy_applied (trace (one_server (stobs "junk"))) (trace w') (err_of r).
Proof.
  destruct (Delete "a" (one_server (stobs "junk"))) as [r w'] eqn:H.
  exists r, w'. split; [reflexivity|]. split.
  - vm_compute in H. now injection H as <- _.
  - exact (Delete_lifecycle _ _ _ _ H).
Defined.

Lemma incrDecr_lifecycle_witness :
  exists r w',
    incrDecr cmdIncr "n" 1
      (one_server (response_header respInvalidIncrDecr 0)) = (r, w') /\
    r = Err ErrBadIncrDec /\
    policy_applied
      (trace (one_server (response_header respInvalidIncrDecr 0)))
      (trace w') (err_of r).
Proof.
  destruct (incrDecr cmdIncr "n" 1
              (one_server (response_header respInvalidIncrDecr 0)))
    as [r w'] eqn:H.
  exists r, w'. split; [reflexivity|]. split.
  - vm_compute in H. now injection H as <- _.
  - exact (incrDecr_lifecycle _ _ _ _ _ _ H).
Defined.

Lemma Flush_every_server_witness :
  exists w' tr,
    (Flush 0 second_down = (Ok tt, w') \/
     exists msg, Flush 0 second_down = (Err (ErrNew msg), w')) /\
    (forall i : nat,
       pool (servers w') !! i = pop <$> pool (servers second_down) !! i) /\
    trace w' = trace second_down ++ tr /\ settled tr.
Proof.
  apply Flush_every_server. vm_compute. split; [reflexivity | lia].
Defined.

Lemma PickServerIndex_range_witness :
  0 <= 2 < Z.of_nat (List.length (pool (servers second_down))).
Proof.
  apply (PickServerIndex_range (servers second_down) "123456789" 2).
  vm_compute. reflexivity.
Defined.

Lemma read_items_fuel_witness :
  read_items
    (S (List.length (incoming (conn_reading 1 (hit_frame
                                                 (mkHit "a" [] 0 0))))))
    (conn_reading 1 (hit_frame (mkHit "a" [] 0 0)))
  <> None.
Proof.
  apply read_items_fuel. apply Nat.lt_succ_diag_r.
Defined.
